(** * gbajs3 Workers API: authentication and session subsystem

    A shallow embedding of [workers-api/src/utils.ts],
    [workers-api/src/routes/auth.ts] and [workers-api/src/routes/tokens.ts],
    and the properties of the login / refresh protocol proved about it.

    Conventions of the embedding.
    - A JavaScript string is the list of its UTF-16 code units ([jsstring]);
      a [Uint8Array] is a list of bytes, each an [N] below 256.
    - An [async] function that may reject, or a function that may throw, returns
      a [result]; code that touches the D1 database or draws a UUID runs in
      the monad [M] over the [World].
    - The runtime services the code calls but does not define (PBKDF2, the
      [jose] JWT library, [JSON.parse], [crypto.randomUUID]) are the fields of
      a [Platform]; what a theorem needs of them is a named contract.
    - [console.warn] and [console.error] are not modelled. *)

From Stdlib Require Import List NArith ZArith String Ascii Bool Lia.
From Stdlib Require Import DecimalString.
Import ListNotations.

(* ================================================================= *)
(** * JavaScript strings *)

Definition jsstring := list N.

(** The code units of a string literal. *)
Definition js (s : string) : jsstring :=
  map N_of_ascii (list_ascii_of_string s).

(** [a === b] on strings. *)
Fixpoint jseqb (a b : jsstring) : bool :=
  match a, b with
  | [], [] => true
  | x :: a', y :: b' => N.eqb x y && jseqb a' b'
  | _, _ => false
  end.

(** [!s] is false exactly for the non-empty strings. *)
Definition truthy (s : jsstring) : bool :=
  match s with [] => false | _ :: _ => true end.

(** [String.prototype.startsWith]. *)
Fixpoint startsWith (s prefix : jsstring) : bool :=
  match prefix, s with
  | [], _ => true
  | p :: prefix', c :: s' => N.eqb c p && startsWith s' prefix'
  | _ :: _, [] => false
  end.

(** [String.prototype.split] with a separator of one code unit. The result
    always has a first field. *)
Fixpoint split (sep : N) (s : jsstring) : jsstring * list jsstring :=
  match s with
  | [] => ([], [])
  | c :: s' =>
      let '(f, fs) := split sep s' in
      if N.eqb c sep then ([], f :: fs) else (c :: f, fs)
  end.

Definition split_fields (sep : N) (s : jsstring) : list jsstring :=
  let '(f, fs) := split sep s in f :: fs.

(** [Array.prototype.join]. *)
Fixpoint join (sep : jsstring) (parts : list jsstring) : jsstring :=
  match parts with
  | [] => []
  | [p] => p
  | p :: ps => p ++ sep ++ join sep ps
  end.

(** White space and line terminators, as [String.prototype.trim] strips
    them. *)
Definition is_js_whitespace (c : N) : bool :=
  ((9 <=? c) && (c <=? 13) || (c =? 32) || (c =? 160) || (c =? 5760)
   || (8192 <=? c) && (c <=? 8202) || (c =? 8232) || (c =? 8233)
   || (c =? 8239) || (c =? 8287) || (c =? 12288) || (c =? 65279))%N.

Fixpoint trimStart (s : jsstring) : jsstring :=
  match s with
  | c :: s' => if is_js_whitespace c then trimStart s' else s
  | [] => []
  end.

Definition trim (s : jsstring) : jsstring :=
  rev (trimStart (rev (trimStart s))).

(** The decimal text of an integer, as a template literal prints a number
    that is an integer below 10^21 in absolute value (larger numbers are
    printed with an exponent). The routes print 25200 and -1. *)
Definition number_toString (z : Z) : jsstring :=
  js (NilEmpty.string_of_int (Z.to_int z)).

(* ================================================================= *)
(** * Exceptions and results *)

Inductive exn : Type :=
| InvalidCharacterError   (* DOMException of atob / btoa *)
| URIError                (* encodeURIComponent / decodeURIComponent *)
| SyntaxError             (* JSON.parse, Request.json *)
| TypeError.              (* a property of [null]; a value D1 does not bind *)

Inductive result (A : Type) : Type :=
| Ok (a : A)
| Throw (e : exn).
Arguments Ok {A} a.
Arguments Throw {A} e.

Definition rbind {A B} (r : result A) (k : A -> result B) : result B :=
  match r with Ok a => k a | Throw e => Throw e end.

(** [try { r } catch { h }] around a computation without state. *)
Definition rcatch {A} (r : result A) (h : A) : A :=
  match r with Ok a => a | Throw _ => h end.

(* ================================================================= *)
(** * Base64: [btoa] and [atob] *)

Module Base64.

(** The character of a sextet (RFC 4648, table 1). *)
Definition char_of (v : N) : N :=
  (if v <? 26 then v + 65
   else if v <? 52 then v - 26 + 97
   else if v <? 62 then v - 52 + 48
   else if v =? 62 then 43 else 47)%N.

(** The sextet of a character of the alphabet. *)
Definition value_of (c : N) : option N :=
  (if (65 <=? c) && (c <=? 90) then Some (c - 65)
   else if (97 <=? c) && (c <=? 122) then Some (c - 97 + 26)
   else if (48 <=? c) && (c <=? 57) then Some (c - 48 + 52)
   else if c =? 43 then Some 62
   else if c =? 47 then Some 63
   else None)%N.

Definition pad : N := 61%N.   (* '=' *)

Fixpoint encode (bytes : list N) : jsstring :=
  match bytes with
  | a :: b :: c :: rest =>
      char_of (a / 4) :: char_of (a mod 4 * 16 + b / 16)
      :: char_of (b mod 16 * 4 + c / 64) :: char_of (c mod 64)
      :: encode rest
  | [a; b] =>
      [char_of (a / 4); char_of (a mod 4 * 16 + b / 16);
       char_of (b mod 16 * 4); pad]
  | [a] => [char_of (a / 4); char_of (a mod 4 * 16); pad; pad]
  | [] => []
  end%N.

(** [btoa]: throws when a code unit is above 255. *)
Definition btoa (s : jsstring) : result jsstring :=
  if forallb (fun c => c <? 256)%N s then Ok (encode s)
  else Throw InvalidCharacterError.

Definition is_ascii_whitespace (c : N) : bool :=
  ((c =? 9) || (c =? 10) || (c =? 12) || (c =? 13) || (c =? 32))%N.

(** The string without the one or two '=' it ends with. *)
Fixpoint drop_trailing_pad (s : jsstring) : jsstring :=
  match s with
  | [] => []
  | [61%N] | [61%N; 61%N] => []
  | c :: s' => c :: drop_trailing_pad s'
  end.

(** The padding is removed when the length is a multiple of 4. *)
Definition strip_padding (s : jsstring) : jsstring :=
  if (List.length s mod 4 =? 0)%nat then drop_trailing_pad s else s.

(** The sextets of a string, when every character is in the alphabet. *)
Fixpoint sextets (s : jsstring) : option (list N) :=
  match s with
  | [] => Some []
  | c :: s' =>
      match value_of c, sextets s' with
      | Some v, Some vs => Some (v :: vs)
      | _, _ => None
      end
  end.

(** Groups of four sextets give three bytes; a rest of three gives two
    bytes and a rest of two gives one, the spare bits dropped. *)
Fixpoint decode (vs : list N) : list N :=
  match vs with
  | a :: b :: c :: d :: rest =>
      (a * 4 + b / 16) :: (b mod 16 * 16 + c / 4) :: (c mod 4 * 64 + d)
      :: decode rest
  | [a; b; c] => [a * 4 + b / 16; b mod 16 * 16 + c / 4]
  | [a; b] => [a * 4 + b / 16]
  | _ => []
  end%N.

(** [atob]: the forgiving-base64 decode of the HTML standard. *)
Definition atob (s : jsstring) : result jsstring :=
  let data := filter (fun c => negb (is_ascii_whitespace c)) s in
  let data := strip_padding data in
  if (List.length data mod 4 =? 1)%nat then Throw InvalidCharacterError
  else match sextets data with
       | Some vs => Ok (decode vs)
       | None => Throw InvalidCharacterError
       end.

End Base64.

(** [String.fromCharCode(...bytes)]: one code unit per byte. *)
Definition String_fromCharCode (bytes : list N) : jsstring := bytes.

(** [Uint8Array.from(s, c => c.charCodeAt(0))]: a [Uint8Array] keeps each
    value modulo 256. *)
Definition Uint8Array_from (s : jsstring) : list N :=
  map (fun c => c mod 256)%N s.

(* ================================================================= *)
(** * UTF-8, [TextEncoder] and the URI component functions *)

Module Unicode.

Definition is_high_surrogate (c : N) : bool :=
  ((55296 <=? c) && (c <=? 56319))%N.      (* D800 .. DBFF *)
Definition is_low_surrogate (c : N) : bool :=
  ((56320 <=? c) && (c <=? 57343))%N.      (* DC00 .. DFFF *)

(** The code points of a string; [None] stands for an unpaired
    surrogate. *)
Fixpoint code_points (s : jsstring) : list (option N) :=
  match s with
  | [] => []
  | c :: rest =>
      if is_high_surrogate c then
        match rest with
        | d :: rest' =>
            if is_low_surrogate d
            then Some (65536 + (c - 55296) * 1024 + (d - 56320))%N
                 :: code_points rest'
            else None :: code_points rest
        | [] => [None]
        end
      else if is_low_surrogate c then None :: code_points rest
      else Some c :: code_points rest
  end.

Definition utf8 (cp : N) : list N :=
  (if cp <? 128 then [cp]
   else if cp <? 2048 then [192 + cp / 64; 128 + cp mod 64]
   else if cp <? 65536 then
     [224 + cp / 4096; 128 + (cp / 64) mod 64; 128 + cp mod 64]
   else [240 + cp / 262144; 128 + (cp / 4096) mod 64;
         128 + (cp / 64) mod 64; 128 + cp mod 64])%N.

Definition utf16 (cp : N) : jsstring :=
  (if cp <? 65536 then [cp]
   else [55296 + (cp - 65536) / 1024; 56320 + (cp - 65536) mod 1024])%N.

(** The code point of a lead byte and its continuation bytes, when they
    are its shortest UTF-8 form and it is no surrogate. *)
Definition utf8_code_point (lead : N) (conts : list N) : option N :=
  let cont v := ((128 <=? v) && (v <=? 191))%N in
  if negb (forallb cont conts) then None
  else
    match conts with
    | [c1] =>
        let cp := ((lead - 192) * 64 + (c1 - 128))%N in
        if (128 <=? cp)%N then Some cp else None
    | [c1; c2] =>
        let cp := ((lead - 224) * 4096 + (c1 - 128) * 64 + (c2 - 128))%N in
        if ((2048 <=? cp) && negb ((55296 <=? cp) && (cp <=? 57343)))%N
        then Some cp else None
    | [c1; c2; c3] =>
        let cp := ((lead - 240) * 262144 + (c1 - 128) * 4096
                   + (c2 - 128) * 64 + (c3 - 128))%N in
        if ((65536 <=? cp) && (cp <=? 1114111))%N then Some cp else None
    | _ => None
    end.

End Unicode.

(** [new TextEncoder().encode(s)]: UTF-8, an unpaired surrogate encoded as
    U+FFFD. *)
Definition TextEncoder_encode (s : jsstring) : list N :=
  flat_map
    (fun cp => Unicode.utf8 (match cp with Some v => v | None => 65533%N end))
    (Unicode.code_points s).

Module URI.

(** Letters, digits and [- _ . ! ~ * ' ( )]. *)
Definition unreserved (c : N) : bool :=
  ((65 <=? c) && (c <=? 90) || (97 <=? c) && (c <=? 122)
   || (48 <=? c) && (c <=? 57)
   || (c =? 45) || (c =? 95) || (c =? 46) || (c =? 33) || (c =? 126)
   || (c =? 42) || (c =? 39) || (c =? 40) || (c =? 41))%N.

Definition hex_digit (v : N) : N :=
  (if v <? 10 then 48 + v else 55 + v)%N.

Definition percent (octet : N) : jsstring :=
  [37%N; hex_digit (octet / 16); hex_digit (octet mod 16)].

Fixpoint encode_points (cps : list (option N)) : result jsstring :=
  match cps with
  | [] => Ok []
  | None :: _ => Throw URIError
  | Some cp :: rest =>
      rbind (encode_points rest) (fun r =>
        Ok ((if unreserved cp then [cp]
             else flat_map percent (Unicode.utf8 cp)) ++ r))
  end.

Definition encodeURIComponent (s : jsstring) : result jsstring :=
  encode_points (Unicode.code_points s).

Definition hex_value (c : N) : option N :=
  (if (48 <=? c) && (c <=? 57) then Some (c - 48)
   else if (65 <=? c) && (c <=? 70) then Some (c - 55)
   else if (97 <=? c) && (c <=? 102) then Some (c - 87)
   else None)%N.

(** An escape [%XY] at the head of the string. *)
Definition take_escape (s : jsstring) : option (N * jsstring) :=
  match s with
  | 37%N :: x :: y :: rest =>
      match hex_value x, hex_value y with
      | Some a, Some b => Some (a * 16 + b, rest)%N
      | _, _ => None
      end
  | _ => None
  end.

Fixpoint take_escapes (n : nat) (s : jsstring) : option (list N * jsstring) :=
  match n with
  | O => Some ([], s)
  | S n' =>
      match take_escape s with
      | Some (b, rest) =>
          match take_escapes n' rest with
          | Some (bs, rest') => Some (b :: bs, rest')
          | None => None
          end
      | None => None
      end
  end.

(** The number of continuation bytes a lead byte announces. *)
Definition continuation_count (lead : N) : option nat :=
  (if (192 <=? lead) && (lead <? 224) then Some 1%nat
   else if (224 <=? lead) && (lead <? 240) then Some 2%nat
   else if (240 <=? lead) && (lead <? 248) then Some 3%nat
   else None)%N.

Fixpoint decode_loop (fuel : nat) (s : jsstring) : result jsstring :=
  match fuel, s with
  | O, _ | _, [] => Ok []
  | S fuel', c :: rest =>
      if (c =? 37)%N then
        match take_escape s with
        | None => Throw URIError
        | Some (b, rest1) =>
            if (b <? 128)%N then
              rbind (decode_loop fuel' rest1) (fun r => Ok (b :: r))
            else
              match continuation_count b with
              | None => Throw URIError
              | Some n =>
                  match take_escapes n rest1 with
                  | None => Throw URIError
                  | Some (conts, rest2) =>
                      match Unicode.utf8_code_point b conts with
                      | None => Throw URIError
                      | Some cp =>
                          rbind (decode_loop fuel' rest2)
                                (fun r => Ok (Unicode.utf16 cp ++ r))
                      end
                  end
              end
        end
      else rbind (decode_loop fuel' rest) (fun r => Ok (c :: r))
  end.

Definition decodeURIComponent (s : jsstring) : result jsstring :=
  decode_loop (List.length s) s.

End URI.

(* ================================================================= *)
(** * Data model ([types.ts], [schema.sql]) *)

(** The bindings of the Worker that the code reads. The D1 database is the
    [World]; the R2 bucket is not used by the routes modelled here. *)
Record Env := {
  ENVIRONMENT : jsstring;
  JWT_SECRET : option jsstring
}.

(** A row of the table [users]. [token_slug] and [token_id] are nullable. *)
Record User := {
  id : Z;
  username : jsstring;
  pass_hash : jsstring;
  token_slug : option jsstring;
  token_id : option jsstring;
  storage_dir : jsstring;
  created_at : jsstring
}.

(** The claim set of a token: [AccessTokenPayload] has no [sub],
    [RefreshTokenPayload] has one. [exp] is in seconds. *)
Record JWTPayload := {
  sub : option jsstring;
  store : jsstring;
  exp : Z
}.

(** A value read from parsed JSON, as far as the handlers tell values
    apart. The declared types say string, but [JSON.parse] and
    [Request.json] return whatever the text holds.
    - [Falsy]: [undefined] (a missing property), [null], [false] or [0];
      the handlers only test such a value.
    - [Str s]: a string; the empty one is falsy too.
    - [Other bound text]: a truthy value that is no string ([true], a
      number other than 0, an array, an object, a function), given by what
      the code can see of it: [bound] is the text that a TEXT column is
      compared with when D1 binds the value, [None] when [bind] throws;
      [text] is its [ToString], which [TextEncoder.encode] takes. *)
Inductive Value : Type :=
| Falsy
| Str (s : jsstring)
| Other (bound : option jsstring) (text : jsstring).

(** [!v] is false exactly for the truthy values. *)
Definition truthy_value (v : Value) : bool :=
  match v with
  | Falsy => false
  | Str s => truthy s
  | Other _ _ => true
  end.

(** [prepare(...).bind(v)]: the text the column is compared with. The
    handlers bind truthy values only; of the falsy ones [undefined] is
    refused. *)
Definition D1_bind (v : Value) : result jsstring :=
  match v with
  | Str s => Ok s
  | Other (Some t) _ => Ok t
  | Other None _ => Throw TypeError
  | Falsy => Throw TypeError
  end.

(** The conversion to a string of an argument declared [USVString]. The
    handlers convert truthy values only. *)
Definition ToString (v : Value) : jsstring :=
  match v with
  | Str s => s
  | Other _ t => t
  | Falsy => js "undefined"
  end.

(** What the login handler reads of a body that is not [null]:
    [body.username] and [body.password]. *)
Record Credentials := {
  cred_username : Value;
  cred_password : Value
}.

(** What the refresh handler can read of a payload that is not [null]:
    [payload.sub] and [payload.store]. For a payload that is itself a
    string, [payload.sub] is the method [String.prototype.sub]. *)
Record RawClaims := {
  raw_sub : Value;
  raw_store : Value
}.

(** What the handlers read of a request: [headers.get('Cookie')] and the
    text of the body. *)
Record Request := {
  cookie_header : option jsstring;
  body_text : jsstring
}.

(** The payload of a response: [c.json({ error: m })], [c.json(s)] for a
    string [s], and [c.text(s)]. *)
Inductive Body : Type :=
| JsonError (message : string)
| JsonString (s : jsstring)
| Text (s : string).

Record Response := {
  status : Z;
  headers : list (string * jsstring);
  body : Body
}.

Definition c_json (b : Body) (st : Z) (hs : list (string * jsstring)) : Response :=
  {| status := st; headers := hs; body := b |}.

Definition c_text (s : string) (st : Z) (hs : list (string * jsstring)) : Response :=
  {| status := st; headers := hs; body := Text s |}.

Fixpoint header (name : string) (hs : list (string * jsstring)) : option jsstring :=
  match hs with
  | [] => None
  | (n, v) :: hs' => if String.eqb n name then Some v else header name hs'
  end.

(* ================================================================= *)
(** * The platform *)

(** The services of the runtime and of the [jose] library.
    - [deriveBits key salt iterations bits]: [crypto.subtle.deriveBits] for
      PBKDF2 with SHA-256.
    - [SignJWT payload secret]: the compact HS256 token of the payload.
    - [jwtVerify token secret now]: the payload of a token that is well
      formed, signed under [secret] and not expired at [now]; [None] when
      the library throws.
    - [JSON_parse text]: the value of a JSON text; [None] when it throws,
      [Some None] when the value is [null].
    - [Request_json text]: the parsed body of a request; [None] when the
      body is not JSON and the promise rejects, [Some None] when the body
      is [null].
    - [randomUUID n]: the [n]-th identifier that [crypto.randomUUID]
      returns. *)
Record Platform := {
  deriveBits : list N -> list N -> N -> N -> list N;
  SignJWT : JWTPayload -> list N -> jsstring;
  jwtVerify : jsstring -> list N -> Z -> option JWTPayload;
  JSON_parse : jsstring -> option (option RawClaims);
  Request_json : jsstring -> option (option Credentials);
  randomUUID : nat -> jsstring
}.

(* ================================================================= *)
(** * The world and its monad *)

(** The table [users] in rowid order, and how many UUIDs were drawn. *)
Record World := {
  users : list User;
  uuids_drawn : nat
}.

Definition M (A : Type) : Type := World -> result A * World.

Definition ret {A} (a : A) : M A := fun w => (Ok a, w).

Definition bind {A B} (m : M A) (k : A -> M B) : M B :=
  fun w => match m w with
           | (Ok a, w') => k a w'
           | (Throw e, w') => (Throw e, w')
           end.

Definition lift {A} (r : result A) : M A := fun w => (r, w).

(** [try { m } catch (error) { h }]. *)
Definition try_catch {A} (m : M A) (h : exn -> M A) : M A :=
  fun w => match m w with
           | (Ok a, w') => (Ok a, w')
           | (Throw e, w') => h e w'
           end.

Notation "x <- m ;; k" := (bind m (fun x => k))
  (at level 61, m at next level, right associativity).

(* ================================================================= *)
(** * [utils.ts] *)

Section Utils.

Context (P : Platform).

Definition generateUUID : M jsstring :=
  fun w => (Ok (randomUUID P (uuids_drawn w)),
            {| users := users w; uuids_drawn := S (uuids_drawn w) |}).

Definition default_secret : string :=
  "gbajs3-default-secret-change-in-production".

Definition getJwtSecret (env : Env) : list N :=
  match JWT_SECRET env with
  | Some (c :: s) => TextEncoder_encode (c :: s)
  | Some [] | None => TextEncoder_encode (js default_secret)
  end.

(** [salt] is the value of [crypto.getRandomValues(new Uint8Array(16))]. *)
Definition hashPassword (password : jsstring) (salt : list N) : result jsstring :=
  let hash := deriveBits P (TextEncoder_encode password) salt 100000 256 in
  rbind (Base64.btoa (String_fromCharCode salt)) (fun saltB64 =>
  rbind (Base64.btoa (String_fromCharCode hash)) (fun hashB64 =>
  Ok (saltB64 ++ js ":" ++ hashB64))).

(** The loop [result |= hashArray[i] ^ expectedHash[i]] over arrays of
    one length. *)
Definition xor_fold (hashArray expectedHash : list N) : N :=
  fold_left (fun result ab => N.lor result (N.lxor (fst ab) (snd ab)))
            (combine hashArray expectedHash) 0%N.

Definition verifyPassword (password storedHash : jsstring) : result bool :=
  if startsWith storedHash (js "$2") then Ok false
  else
    let '(saltB64, rest) := split 58 storedHash in
    match hd_error rest with
    | None => Ok false
    | Some hashB64 =>
        if negb (truthy saltB64) || negb (truthy hashB64) then Ok false
        else
          rbind (Base64.atob saltB64) (fun salt_s =>
          rbind (Base64.atob hashB64) (fun hash_s =>
          let salt := Uint8Array_from salt_s in
          let expectedHash := Uint8Array_from hash_s in
          let hashArray :=
            deriveBits P (TextEncoder_encode password) salt 100000 256 in
          if negb (List.length hashArray =? List.length expectedHash)%nat
          then Ok false
          else Ok (xor_fold hashArray expectedHash =? 0)%N))
    end.

(** [now] is [Math.floor(Date.now() / 1000)]; [setExpirationTime('5m')]
    sets [exp] to the same instant. *)
Definition createAccessToken (storageDir : jsstring) (secret : list N) (now : Z)
  : jsstring :=
  let payload := {| sub := None; store := storageDir; exp := now + 5 * 60 |} in
  SignJWT P payload secret.

Definition createRefreshToken (tokenId storageDir tokenSlug : jsstring) (now : Z)
  : jsstring :=
  let secret := TextEncoder_encode tokenSlug in
  let payload :=
    {| sub := Some tokenId; store := storageDir; exp := now + 7 * 60 * 60 |} in
  SignJWT P payload secret.

Definition verifyAccessToken (token : jsstring) (secret : list N) (now : Z)
  : option JWTPayload :=
  jwtVerify P token secret now.

Definition verifyRefreshToken (token tokenSlug : jsstring) (now : Z)
  : option JWTPayload :=
  let secret := TextEncoder_encode tokenSlug in
  jwtVerify P token secret now.

(** [SELECT ... FROM users WHERE username = ?], first row. *)
Definition fetchUserByUsername (name : jsstring) : M (option User) :=
  fun w => (Ok (find (fun u => jseqb (username u) name) (users w)), w).

Definition has_token_id (tokenId : jsstring) (u : User) : bool :=
  match token_id u with
  | Some t => jseqb t tokenId
  | None => false
  end.

(** [SELECT token_slug FROM users WHERE token_id = ?], first row;
    [result?.token_slug ?? null]. *)
Definition fetchTokenSlugByTokenId (tokenId : jsstring) : M (option jsstring) :=
  fun w => (Ok (match find (has_token_id tokenId) (users w) with
                | Some u => token_slug u
                | None => None
                end), w).

Definition set_tokens (tokenId tokenSlug : jsstring) (u : User) : User :=
  {| id := id u; username := username u; pass_hash := pass_hash u;
     token_slug := Some tokenSlug; token_id := Some tokenId;
     storage_dir := storage_dir u; created_at := created_at u |}.

(** The result of [run()]: a statement that ran has [success] set, and
    [meta.changes] counts the rows it matched. *)
Record D1Result := { success : bool; changes : option Z }.

(** [UPDATE users SET token_id = ?, token_slug = ? WHERE id = ?]. *)
Definition run_update (userId : Z) (tokenId tokenSlug : jsstring) : M D1Result :=
  fun w =>
    (Ok {| success := true;
           changes := Some (Z.of_nat
                       (List.length (filter (fun u => id u =? userId)%Z (users w)))) |},
     {| users := map (fun u => if (id u =? userId)%Z
                               then set_tokens tokenId tokenSlug u else u)
                     (users w);
        uuids_drawn := uuids_drawn w |}).

Definition updateUserTokenFields (userId : Z) (tokenId tokenSlug : jsstring)
  : M bool :=
  r <- run_update userId tokenId tokenSlug ;;
  ret (success r && (0 <? match changes r with Some n => n | None => 0 end)%Z).

(** The first two fields of [cookie.split('=')]. *)
Definition cookie_key_value (cookie : jsstring) : jsstring * option jsstring :=
  let '(key, rest) := split 61 cookie in (key, hd_error rest).

(** The [for] loop of [getCookie]; [decodeURIComponent(undefined)] decodes
    the text [undefined]. *)
Fixpoint getCookie_loop (cookies : list jsstring) (name : jsstring)
  : result (option jsstring) :=
  match cookies with
  | [] => Ok None
  | cookie :: cookies' =>
      let '(key, value) := cookie_key_value cookie in
      if jseqb key name then
        rbind (URI.decodeURIComponent
                 (match value with Some v => v | None => js "undefined" end))
              (fun v => Ok (Some v))
      else getCookie_loop cookies' name
  end.

Definition getCookie (request : Request) (name : jsstring)
  : result (option jsstring) :=
  match cookie_header request with
  | None | Some [] => Ok None
  | Some cookieHeader =>
      let cookies := map trim (split_fields 59 cookieHeader) in
      getCookie_loop cookies name
  end.

Inductive SameSite : Type := Strict | Lax | SameSiteNone.

Definition SameSite_text (s : SameSite) : string :=
  match s with Strict => "Strict" | Lax => "Lax" | SameSiteNone => "None" end.

Record CookieOptions := {
  path : option jsstring;
  maxAge : option Z;
  httpOnly : option bool;
  secure : option bool;
  sameSite : option SameSite
}.

Definition createCookie (name value : jsstring) (options : CookieOptions)
  : result jsstring :=
  rbind (URI.encodeURIComponent value) (fun encoded =>
  let parts := [name ++ js "=" ++ encoded] in
  let parts := match path options with
               | Some (c :: p) => parts ++ [js "Path=" ++ c :: p]
               | _ => parts
               end in
  let parts := match maxAge options with
               | Some n => parts ++ [js "Max-Age=" ++ number_toString n]
               | None => parts
               end in
  let parts := match httpOnly options with
               | Some true => parts ++ [js "HttpOnly"]
               | _ => parts
               end in
  let parts := match secure options with
               | Some true => parts ++ [js "Secure"]
               | _ => parts
               end in
  let parts := match sameSite options with
               | Some s => parts ++ [js "SameSite=" ++ js (SameSite_text s)]
               | None => parts
               end in
  Ok (join (js "; ") parts)).

End Utils.

(* ================================================================= *)
(** * [routes/auth.ts] and [routes/tokens.ts] *)

Section Routes.

Context (P : Platform).

Definition internal_server_error : Response :=
  c_json (JsonError "Internal server error") 500 [].

Definition unauthorized (message : string) : Response :=
  c_json (JsonError message) 401 [].

Definition refresh_cookie_options (age : Z) : CookieOptions :=
  {| path := Some (js "/api/tokens/refresh");
     maxAge := Some age;
     httpOnly := Some true;
     secure := Some true;
     sameSite := Some Strict |}.

(** The handler of [POST /api/account/login] from the point where the
    password is verified: [user] is the row read before. The store it
    runs against is the store at the time of the UPDATE, which another
    request or an administrator may have changed since the row was
    read. *)
Definition login_issue (env : Env) (user : User) (now : Z) : M Response :=
  newTokenId <- generateUUID P ;;
  newTokenSlug <- generateUUID P ;;
  updated <- updateUserTokenFields (id user) newTokenId newTokenSlug ;;
  if negb updated then ret internal_server_error
  else
    let secret := getJwtSecret env in
    let accessToken := createAccessToken P (storage_dir user) secret now in
    let refreshToken :=
      createRefreshToken P newTokenId (storage_dir user) newTokenSlug now in
    cookie <- lift (createCookie (js "refresh-tok") refreshToken
                                 (refresh_cookie_options (7 * 60 * 60))) ;;
    ret (c_json (JsonString accessToken) 200 [("Set-Cookie"%string, cookie)]).

(** [POST /api/account/login]. Reading [body.username] of a body that is
    [null] throws; [fetchUserByUsername] binds the username and
    [verifyPassword] encodes the password, whatever values they are. *)
Definition login (env : Env) (req : Request) (now : Z) : M Response :=
  try_catch
    (match Request_json P (body_text req) with
     | None => lift (Throw SyntaxError)
     | Some None => lift (Throw TypeError)
     | Some (Some body) =>
         if negb (truthy_value (cred_username body))
            || negb (truthy_value (cred_password body))
         then ret (c_json (JsonError "Missing credentials") 400 [])
         else
           name <- lift (D1_bind (cred_username body)) ;;
           user <- fetchUserByUsername name ;;
           match user with
           | None => ret (unauthorized "Unauthorized")
           | Some user =>
               validPassword <-
                 lift (verifyPassword P (ToString (cred_password body))
                                      (pass_hash user)) ;;
               if negb validPassword then ret (unauthorized "Unauthorized")
               else login_issue env user now
           end
     end)
    (fun _ => ret internal_server_error).

(** [POST /api/account/logout]. *)
Definition logout : M Response :=
  cookie <- lift (createCookie (js "refresh-tok") (js "")
                               (refresh_cookie_options (-1))) ;;
  ret (c_text "Logged out" 200 [("Set-Cookie"%string, cookie)]).

(** [JSON.parse(atob(parts[1]))] inside its own [try]: [None] when either
    throws. *)
Definition decode_payload (part : jsstring) : option (option RawClaims) :=
  match Base64.atob part with
  | Ok text => JSON_parse P text
  | Throw _ => None
  end.

(** [POST /api/tokens/refresh]. Only [JSON.parse(atob(...))] is inside the
    inner [try]: reading [payload.sub] of a payload that is [null] throws
    to the outer [catch], and so does [fetchTokenSlugByTokenId] when D1
    does not bind the [sub]. *)
Definition refresh (env : Env) (req : Request) (now : Z) : M Response :=
  try_catch
    (cookie <- lift (getCookie req (js "refresh-tok")) ;;
     match cookie with
     | None | Some [] => ret (unauthorized "No refresh token")
     | Some refreshToken =>
         let parts := split_fields 46 refreshToken in
         if negb (List.length parts =? 3)%nat
         then ret (unauthorized "Invalid token format")
         else
           match decode_payload (nth 1 parts []) with
           | None => ret (unauthorized "Invalid token")
           | Some None => lift (Throw TypeError)
           | Some (Some payload) =>
               if negb (truthy_value (raw_sub payload))
               then ret (unauthorized "Invalid token payload")
               else
                 payload_sub <- lift (D1_bind (raw_sub payload)) ;;
                 slug <- fetchTokenSlugByTokenId payload_sub ;;
                 match slug with
                 | None | Some [] => ret (unauthorized "Token not found")
                 | Some tokenSlug =>
                     match verifyRefreshToken P refreshToken tokenSlug now with
                     | None => ret (unauthorized "Invalid or expired token")
                     | Some claims =>
                         let secret := getJwtSecret env in
                         let accessToken :=
                           createAccessToken P (store claims) secret now in
                         ret (c_json (JsonString accessToken) 200 [])
                     end
                 end
           end
     end)
    (fun _ => ret internal_server_error).

(** ** Runs of the service *)

Inductive event : Type :=
| Login (req : Request) (now : Z)
| Logout
| Refresh (req : Request) (now : Z).

Definition handle (env : Env) (ev : event) : M Response :=
  match ev with
  | Login req now => login env req now
  | Logout => logout
  | Refresh req now => refresh env req now
  end.

Definition step (env : Env) (w : World) (ev : event) : World :=
  snd (handle env ev w).

Definition run (env : Env) (evs : list event) (w : World) : World :=
  fold_left (step env) evs w.

(** The rows are there before the service runs: their ids are distinct
    (primary key) and no session was opened yet, both token columns
    null. *)
Definition initial (w : World) : Prop :=
  NoDup (map id (users w)) /\
  Forall (fun u => token_id u = None /\ token_slug u = None) (users w).

Inductive reachable (env : Env) : World -> Prop :=
| reachable_initial : forall w, initial w -> reachable env w
| reachable_step : forall w ev,
    reachable env w -> reachable env (step env w ev).

(** The slot on file for a user. *)
Definition user_slot (w : World) (uid : Z) (tokenId tokenSlug : jsstring) : Prop :=
  exists u, In u (users w) /\ id u = uid /\
            token_id u = Some tokenId /\ token_slug u = Some tokenSlug.

End Routes.

(* ================================================================= *)
(** * A small executable platform

    An instance of [Platform] on which the handlers run inside Rocq. Its
    tokens are [letters secret . letters claims . sig], its key derivation a
    checksum; it has the shape of the real services, not their strength. *)

Module Demo.

(** Two letters [a..p] per byte. *)
Definition letters (bytes : list N) : jsstring :=
  flat_map (fun b => [97 + (b / 16) mod 16; 97 + b mod 16]%N) bytes.

Fixpoint unletters (s : jsstring) : list N :=
  match s with
  | a :: b :: s' => ((a - 97) * 16 + (b - 97))%N :: unletters s'
  | _ => []
  end.

Definition digit_value (c : N) : option Z :=
  if ((48 <=? c) && (c <=? 57))%N then Some (Z.of_N (c - 48)) else None.

Fixpoint decimal (acc : Z) (s : jsstring) : option Z :=
  match s with
  | [] => Some acc
  | c :: s' =>
      match digit_value c with
      | Some d => decimal (acc * 10 + d) s'
      | None => None
      end
  end.

(** [sub|store|exp|], with one more bar when that makes the length even. *)
Definition claims_text (p : JWTPayload) : jsstring :=
  let t := match sub p with Some s => s | None => [] end
           ++ [124%N] ++ store p ++ [124%N] ++ number_toString (exp p)
           ++ [124%N] in
  if Nat.even (List.length t) then t else t ++ [124%N].

Definition claims_of (text : jsstring) : option JWTPayload :=
  match split_fields 124 text with
  | s :: st :: (_ :: _ as e) :: _ =>
      match decimal 0 e with
      | Some n => Some {| sub := match s with [] => None | _ => Some s end;
                          store := st; exp := n |}
      | None => None
      end
  | _ => None
  end.

Definition sign (p : JWTPayload) (secret : list N) : jsstring :=
  letters secret ++ [46%N] ++ letters (claims_text p) ++ [46%N] ++ js "sig".

Definition verify (token : jsstring) (secret : list N) (now : Z)
  : option JWTPayload :=
  let '(key, rest) := split 46 token in
  match rest with
  | [claims; _] =>
      if jseqb key (letters secret) then
        match claims_of (unletters claims) with
        | Some p => if (now <? exp p)%Z then Some p else None
        | None => None
        end
      else None
  | _ => None
  end.

(** A claim that may be absent, as a value. *)
Definition claim_value (c : option jsstring) : Value :=
  match c with Some s => Str s | None => Falsy end.

(** The JSON text of an object whose [sub] is the empty object: an
    opening brace, the key [sub] in double quotes, a colon, [{}] and the
    closing brace. *)
Definition sub_object_text : jsstring :=
  [123; 34; 115; 117; 98; 34; 58; 123; 125; 125]%N.

(** The text [null] parses to [null]; [sub_object_text] to an object whose
    [sub] is an object, which D1 refuses to bind. *)
Definition parse_claims (text : jsstring) : option (option RawClaims) :=
  if jseqb text (js "null") then Some None
  else if jseqb text sub_object_text then
    Some (Some {| raw_sub := Other None (js "[object Object]");
                  raw_store := Falsy |})
  else
    match Base64.btoa text with
    | Ok b =>
        match claims_of (unletters b) with
        | Some p =>
            Some (Some {| raw_sub := claim_value (sub p);
                          raw_store := Str (store p) |})
        | None => None
        end
    | Throw _ => None
    end.

(** Bodies of the form [{username,password}], and [null]. *)
Definition parse_body (text : jsstring) : option (option Credentials) :=
  if jseqb text (js "null") then Some None
  else
    match text with
    | 123%N :: inner =>
        match rev inner with
        | 125%N :: r =>
            match split_fields 44 (rev r) with
            | [[]] =>
                Some (Some {| cred_username := Falsy; cred_password := Falsy |})
            | [u] =>
                Some (Some {| cred_username := Str u; cred_password := Falsy |})
            | u :: p :: _ =>
                Some (Some {| cred_username := Str u; cred_password := Str p |})
            | [] => None
            end
        | _ => None
        end
    | _ => None
    end.

Definition checksum (key salt : list N) (iterations bits : N) : list N :=
  let seed := fold_left N.add (key ++ salt) iterations in
  map (fun i => (seed * 31 + N.of_nat i * 7) mod 256)%N
      (seq 0 (N.to_nat (bits / 8))).

Definition uuid (n : nat) : jsstring := 117%N :: repeat 97%N n.

Definition platform : Platform :=
  {| deriveBits := checksum;
     SignJWT := sign;
     jwtVerify := verify;
     JSON_parse := parse_claims;
     Request_json := parse_body;
     randomUUID := uuid |}.

Definition env : Env :=
  {| ENVIRONMENT := js "development"; JWT_SECRET := None |}.

Definition salt : list N :=
  [1; 2; 3; 4; 5; 6; 7; 8; 9; 10; 11; 12; 13; 14; 15; 16]%N.

Definition alice_hash : jsstring :=
  rcatch (hashPassword platform (js "correct-password") salt) [].

Definition alice : User :=
  {| id := 1; username := js "alice"; pass_hash := alice_hash;
     token_slug := None; token_id := None;
     storage_dir := js "store-alice"; created_at := js "2024-01-01" |}.

Definition bob : User :=
  {| id := 2; username := js "bob"; pass_hash := js "$2b$10$abcdefgh";
     token_slug := None; token_id := None;
     storage_dir := js "store-bob"; created_at := js "2024-01-02" |}.

Definition world : World := {| users := [alice; bob]; uuids_drawn := 0 |}.

Definition login_request : Request :=
  {| cookie_header := None; body_text := js "{alice,correct-password}" |}.

(** The request a client sends back with the cookie of a response. *)
Definition cookie_of (r : Response) : jsstring :=
  match header "Set-Cookie" (headers r) with
  | Some c => fst (split 59 c)
  | None => []
  end.

Definition refresh_request (cookie : jsstring) : Request :=
  {| cookie_header := Some cookie; body_text := [] |}.

(** A first login of alice at time 1000, and the refresh request a
    client builds from its response. *)
Definition login1 : result Response * World :=
  login platform env login_request 1000 world.

Definition world1 : World := snd login1.

Definition response1 : Response := rcatch (fst login1) internal_server_error.

Definition refresh1 : Request := refresh_request (cookie_of response1).

Definition refreshed1 : Response :=
  rcatch (fst (refresh platform env refresh1 1001 world1))
         internal_server_error.

(** A second login of alice at time 2000. *)
Definition login2 : result Response * World :=
  login platform env login_request 2000 world1.

Definition world2 : World := snd login2.

Definition response2 : Response := rcatch (fst login2) internal_server_error.

End Demo.

(* ================================================================= *)
(** * Contracts of the platform *)

(** [deriveBits] with a length of 256 bits returns 32 bytes. *)
Definition derives_32_bytes (P : Platform) : Prop :=
  forall key salt iterations,
    List.length (deriveBits P key salt iterations 256) = 32%nat /\
    Forall (fun b => b < 256)%N (deriveBits P key salt iterations 256).

(** A compact token is made of base64url characters and dots, which
    [encodeURIComponent] leaves alone. *)
Definition compact_tokens (P : Platform) : Prop :=
  forall p secret, Forall (fun c => URI.unreserved c = true) (SignJWT P p secret).

(** A token signed under one generated slug verifies under no other
    generated slug. *)
Definition slug_binding (P : Platform) : Prop :=
  forall p i j now p',
    jwtVerify P (SignJWT P p (TextEncoder_encode (randomUUID P i)))
              (TextEncoder_encode (randomUUID P j)) now = Some p' ->
    i = j.

(** The world after a login that reached the UPDATE for the rows with id
    [uid]. *)
Definition rotated (P : Platform) (uid : Z) (w : World) : World :=
  {| users := map (fun u => if (id u =? uid)%Z
                            then set_tokens (randomUUID P (uuids_drawn w))
                                            (randomUUID P (S (uuids_drawn w))) u
                            else u)
                  (users w);
     uuids_drawn := S (S (uuids_drawn w)) |}.

(** A character that is none of [$ : =] and no white space, as every
    character of the base64 alphabet is. *)
Definition plain (c : N) : Prop :=
  c <> 36%N /\ c <> 58%N /\ c <> 61%N /\
  Base64.is_ascii_whitespace c = false.

(** Every slug on file in a row whose id satisfies [sel] is a generated
    identifier other than the [m]-th. *)
Definition slugs_avoid (P : Platform) (m : nat) (sel : Z -> Prop) (w : World)
  : Prop :=
  forall u x, In u (users w) -> sel (id u) -> token_slug u = Some x ->
              exists k, k <> m /\ x = randomUUID P k.

(** Every slug on file was drawn before. *)
Definition slugs_drawn (P : Platform) (w : World) : Prop :=
  forall u x, In u (users w) -> token_slug u = Some x ->
              exists k, (k < uuids_drawn w)%nat /\ x = randomUUID P k.

(** The row that [fetchUserByUsername] returns for [name] has id [uid]. *)
Definition finds (name : jsstring) (uid : Z) (w : World) : Prop :=
  option_map id (find (fun u => jseqb (username u) name) (users w))
  = Some uid.

(** How many rows the UPDATE of a login matches. *)
Definition rows_matched (uid : Z) (w : World) : Z :=
  Z.of_nat (List.length (filter (fun u => id u =? uid)%Z (users w))).


(** The payload of [token] is one the refresh handler reads without
    throwing: if it decodes at all it is not [null], and its [sub] is a
    string or falsy. So it is for a token of [jose], whose payload is an
    object with a string [sub] or none. *)
Definition object_payload (P : Platform) (token : jsstring) : bool :=
  match decode_payload P (nth 1 (split_fields 46 token) []) with
  | None => true
  | Some None => false
  | Some (Some claims) =>
      match raw_sub claims with
      | Falsy | Str _ => true
      | Other _ _ => false
      end
  end.



(* ================================================================= *)
(** * [index.ts]: the CORS policy and the bearer guard *)

(** [String.prototype.includes]. *)
Fixpoint includes (s pattern : jsstring) : bool :=
  startsWith s pattern ||
  match s with
  | [] => false
  | _ :: s' => includes s' pattern
  end.

(** The [origin] callback of the CORS middleware; Hono calls it with the
    [Origin] header, the empty string when there is none. *)
Definition cors_origin (origin : jsstring) : jsstring :=
  match origin with
  | [] => js "*"
  | _ :: _ =>
      if includes origin (js "localhost") || includes origin (js "127.0.0.1")
      then origin
      else if includes origin (js "pages.dev") || includes origin (js "workers.dev")
      then origin
      else origin
  end.

(** What the middleware of [/api/rom/*] and of [/api/save/*] does with a
    request: answer it, or call [next()] with [storePath] set. The two
    middlewares are the same code. *)
Inductive Guarded : Type :=
| Rejected (response : Response)
| Proceeds (storePath : jsstring).

(** [authHeader] is [c.req.header('Authorization')]. *)
Definition bearer_guard (P : Platform) (env : Env) (authHeader : option jsstring)
    (now : Z) : Guarded :=
  let bearerPrefix := js "Bearer " in
  match authHeader with
  | None | Some [] => Rejected (c_json (JsonError "Unauthorized") 401 [])
  | Some authHeader =>
      if negb (startsWith authHeader bearerPrefix)
      then Rejected (c_json (JsonError "Unauthorized") 401 [])
      else
        let token := skipn (List.length bearerPrefix) authHeader in
        let secret := getJwtSecret env in
        match verifyAccessToken P token secret now with
        | None => Rejected (c_json (JsonError "Invalid or expired token") 401 [])
        | Some claims => Proceeds (store claims)
        end
  end.

(* ================================================================= *)
(** * [create-user-hash.mjs] *)

Module CreateUserHash.

(** [Buffer.from(bytes).toString('base64')]: base64 with padding. *)
Definition Buffer_toString_base64 (bytes : list N) : jsstring :=
  Base64.encode bytes.

(** The [hashPassword] of the script; [salt] is the value of
    [crypto.getRandomValues(new Uint8Array(16))]. *)
Definition hashPassword (P : Platform) (password : jsstring) (salt : list N)
  : jsstring :=
  let hash := deriveBits P (TextEncoder_encode password) salt 100000 256 in
  let saltB64 := Buffer_toString_base64 salt in
  let hashB64 := Buffer_toString_base64 hash in
  saltB64 ++ js ":" ++ hashB64.

End CreateUserHash.

(* ================================================================= *)
(** * More contracts and vocabulary *)

(** A token verifies under the key it was signed with, until it expires. *)
Definition verifies_own_tokens (P : Platform) : Prop :=
  forall p secret now,
    secret <> [] -> (now < exp p)%Z ->
    jwtVerify P (SignJWT P p secret) secret now = Some p.

(** [crypto.randomUUID] never returns the same identifier twice, and never
    the empty string. *)
Definition uuids_distinct (P : Platform) : Prop :=
  (forall i j, randomUUID P i = randomUUID P j -> i = j) /\
  (forall i, randomUUID P i <> []).

(** The columns of a row that no route writes. *)
Definition fixed_columns (u : User)
  : Z * jsstring * jsstring * jsstring * jsstring :=
  (id u, username u, pass_hash u, storage_dir u, created_at u).

(** The text a client sends back for a [Set-Cookie] header: what stands
    before its first semicolon. *)
Definition cookie_pair (setCookie : jsstring) : jsstring :=
  fst (split 59 setCookie).

(** A code point that is no surrogate. *)
Definition scalar (cp : N) : Prop :=
  (cp < 1114112 /\ ~ (55296 <= cp <= 57343))%N.

(** What [encodeURIComponent] writes for one code point. *)
Definition chunk (cp : N) : jsstring :=
  if URI.unreserved cp then [cp]
  else flat_map URI.percent (Unicode.utf8 cp).

(** A character that cookie parsing does not touch: no semicolon, no equals
    sign and no white space. *)
Definition cookie_safe (c : N) : Prop :=
  c <> 59%N /\ c <> 61%N /\ is_js_whitespace c = false.

(* ================================================================= *)
(** * An executable platform with exact tokens

    A second instance of [Platform]: its tokens spell the key and the
    claims as binary numbers in letters, so that verification gives back
    exactly the payload that was signed. *)

Module Lossless.

(** A positive number, lowest bit first: [c] for 1, [d] for 0, and [e] for
    the leading 1 that ends it. *)
Fixpoint bits (p : positive) : jsstring :=
  match p with
  | xI q => 99%N :: bits q
  | xO q => 100%N :: bits q
  | xH => [101%N]
  end.

(** The letters of the tokens. *)
Definition letter (c : N) : Prop :=
  c = 99%N \/ c = 100%N \/ c = 101%N \/ c = 122%N.

(** [z] stands for zero. *)
Definition number (n : N) : jsstring :=
  match n with N0 => [122%N] | Npos p => bits p end.

Definition numbers (l : list N) : jsstring := flat_map number l.

(** The numbers that a text spells. *)
Fixpoint read (s : jsstring) : list N :=
  match s with
  | [] => []
  | c :: s' =>
      let r := read s' in
      if (c =? 122)%N then 0%N :: r
      else if (c =? 101)%N then 1%N :: r
      else if (c =? 99)%N then
        match r with n :: l => (2 * n + 1)%N :: l | [] => [] end
      else if (c =? 100)%N then
        match r with n :: l => (2 * n)%N :: l | [] => [] end
      else r
  end.

Definition text_numbers (s : jsstring) : list N :=
  N.of_nat (List.length s) :: s.

(** [sub] (absent, or present with its text), [store], the sign of [exp]
    and its absolute value. *)
Definition claims_numbers (p : JWTPayload) : list N :=
  match sub p with
  | None => [0%N]
  | Some s => 1%N :: text_numbers s
  end
  ++ text_numbers (store p)
  ++ [if (exp p <? 0)%Z then 1%N else 0%N; Z.abs_N (exp p)].

Definition take_text (l : list N) : option (jsstring * list N) :=
  match l with
  | n :: r =>
      if (List.length r <? N.to_nat n)%nat then None
      else Some (firstn (N.to_nat n) r, skipn (N.to_nat n) r)
  | [] => None
  end.

Definition claims_of (l : list N) : option JWTPayload :=
  match l with
  | tag :: r =>
      match (if (tag =? 0)%N then Some (None, r)
             else match take_text r with
                  | Some (s, r') => Some (Some s, r')
                  | None => None
                  end) with
      | Some (s, r1) =>
          match take_text r1 with
          | Some (st, sign :: a :: _) =>
              Some {| sub := s; store := st;
                      exp := if (sign =? 0)%N then Z.of_N a else - Z.of_N a |}
          | _ => None
          end
      | None => None
      end
  | [] => None
  end.

(** Zeros up to a length that is a multiple of 4, which [atob] accepts. *)
Definition fill (s : jsstring) : jsstring :=
  s ++ repeat 122%N ((4 - List.length s mod 4) mod 4).

Definition sign (p : JWTPayload) (secret : list N) : jsstring :=
  numbers secret ++ [46%N] ++ fill (numbers (claims_numbers p))
  ++ [46%N] ++ js "sig".

Definition verify (token : jsstring) (secret : list N) (now : Z)
  : option JWTPayload :=
  let '(key, rest) := split 46 token in
  match rest with
  | [claims; _] =>
      if jseqb key (numbers secret) then
        match claims_of (read claims) with
        | Some p => if (now <? exp p)%Z then Some p else None
        | None => None
        end
      else None
  | _ => None
  end.

Definition parse_claims (text : jsstring) : option (option RawClaims) :=
  match Base64.btoa text with
  | Ok b =>
      match claims_of (read b) with
      | Some p =>
          Some (Some {| raw_sub := Demo.claim_value (sub p);
                        raw_store := Str (store p) |})
      | None => None
      end
  | Throw _ => None
  end.

Definition platform : Platform :=
  {| deriveBits := Demo.checksum;
     SignJWT := sign;
     jwtVerify := verify;
     JSON_parse := parse_claims;
     Request_json := Demo.parse_body;
     randomUUID := Demo.uuid |}.

(** A first login of alice at time 1000, the refresh request a client
    builds from its response, and the response to it at time 1200. *)
Definition login1 : result Response * World :=
  login platform Demo.env Demo.login_request 1000 Demo.world.

Definition world1 : World := snd login1.

Definition response1 : Response := rcatch (fst login1) internal_server_error.

Definition refresh1 : Request :=
  {| cookie_header :=
       option_map cookie_pair (header "Set-Cookie" (headers response1));
     body_text := [] |}.

Definition refreshed1 : Response :=
  rcatch (fst (refresh platform Demo.env refresh1 1200 world1))
         internal_server_error.

End Lossless.

(** Every token id on file was drawn before. *)
Definition ids_drawn (P : Platform) (w : World) : Prop :=
  forall u x, In u (users w) -> token_id u = Some x ->
              exists k, (k < uuids_drawn w)%nat /\ x = randomUUID P k.

(** Rows that hold the same token id have the same id. *)
Definition ids_owned (w : World) : Prop :=
  forall u u' t, In u (users w) -> In u' (users w) ->
                 token_id u = Some t -> token_id u' = Some t -> id u = id u'.

(** The refresh handler can read the claimed [sub] of a token: the token
    has three parts and the second decodes, by [atob] and [JSON.parse], to
    claims with that [sub]. *)
Definition readable (P : Platform) (token tokenId : jsstring) : Prop :=
  List.length (split_fields 46 token) = 3%nat /\
  exists claims,
    decode_payload P (nth 1 (split_fields 46 token) []) = Some (Some claims) /\
    raw_sub claims = Str tokenId.

(* ================================================================= *)
(** * [routes/files.ts] *)

(** A file of a multipart form: [file.name] and the bytes of
    [file.stream()]. *)
Record File := {
  file_name : jsstring;
  file_bytes : list N
}.

(** A field of a form is a text or a file. *)
Inductive FormValue : Type :=
| FormText (text : jsstring)
| FormFile (file : File).

(** What the file routes use of the runtime.
    - [R2_list b prefix]: the keys of [STORAGE.list({ prefix }).objects].
    - [R2_get b key]: the body of [STORAGE.get(key)], [Some None] for
      [null].
    - [R2_put b key bytes contentType]: the bucket after [STORAGE.put].
    - [header_value v]: the value that [headers.set] stores for [v].
    - [toLowerCase]: [String.prototype.toLowerCase].
    The first four are [None] when the call throws; a [put] that throws
    leaves the bucket as it was. *)
Record FilesRuntime := {
  Bucket : Type;
  R2_list : Bucket -> jsstring -> option (list jsstring);
  R2_get : Bucket -> jsstring -> option (option (list N));
  R2_put : Bucket -> jsstring -> list N -> jsstring -> option Bucket;
  header_value : jsstring -> option jsstring;
  toLowerCase : jsstring -> jsstring
}.

(** The payload of a response of the file routes: [c.json({ error: m })],
    [c.json(names)], [c.json({ success: true, filename })] and
    [new Response(object.body, ...)]. *)
Inductive FilesBody : Type :=
| FilesError (message : string)
| FileNames (names : list jsstring)
| Uploaded (filename : jsstring)
| FileContent (bytes : list N).

Record FilesResponse := {
  files_status : Z;
  files_headers : list (string * jsstring);
  files_body : FilesBody
}.

Definition files_json (b : FilesBody) (st : Z) : FilesResponse :=
  {| files_status := st; files_headers := []; files_body := b |}.

(** [String.prototype.lastIndexOf] for one code unit; -1 when absent. *)
Fixpoint lastIndexOf_from (s : jsstring) (c : N) (i last : Z) : Z :=
  match s with
  | [] => last
  | x :: s' => lastIndexOf_from s' c (i + 1) (if (x =? c)%N then i else last)
  end.

Definition lastIndexOf (s : jsstring) (c : N) : Z :=
  lastIndexOf_from s c 0 (-1).

(** [String.prototype.slice(start)]: a negative [start] counts from the
    end. *)
Definition slice (s : jsstring) (start : Z) : jsstring :=
  let len := Z.of_nat (List.length s) in
  let from := if (start <? 0)%Z then Z.max (len + start) 0
              else Z.min start len in
  skipn (Z.to_nat from) s.

(** [s.replace(pattern, '')]: the first occurrence of [pattern] removed. *)
Fixpoint remove_first (s pattern : jsstring) : jsstring :=
  if startsWith s pattern then skipn (List.length pattern) s
  else match s with
       | [] => []
       | c :: s' => c :: remove_first s' pattern
       end.

(** [`attachment; filename="${filename}"`]; 34 is the double quote. *)
Definition content_disposition (filename : jsstring) : jsstring :=
  js "attachment; filename=" ++ 34%N :: filename ++ [34%N].

Definition validExtensions : list jsstring :=
  [js ".gba"; js ".gbc"; js ".gb"; js ".zip"; js ".7z"].

Section Files.

Context (R : FilesRuntime).

(** [getStorePath]: [c.get('storePath') ?? null]. *)
Definition getStorePath (storePath : option jsstring) : option jsstring :=
  storePath.

Definition files_unauthorized : FilesResponse :=
  files_json (FilesError "Unauthorized") 401.

Definition files_internal_error : FilesResponse :=
  files_json (FilesError "Internal server error") 500.

(** [GET /api/rom/list] and [GET /api/save/list], for the directory
    [roms] or [saves]. *)
Definition list_files (directory : string) (context : option jsstring)
    (b : Bucket R) : FilesResponse :=
  match getStorePath context with
  | None | Some [] => files_unauthorized
  | Some storePath =>
      let prefix := js directory ++ js "/" ++ storePath ++ js "/" in
      match R2_list R b prefix with
      | None => files_internal_error
      | Some keys =>
          let files :=
            filter (fun name => (0 <? List.length name)%nat)
                   (map (fun key => remove_first key prefix) keys) in
          files_json (FileNames files) 200
      end
  end.

Definition rom_list := list_files "roms".
Definition save_list := list_files "saves".

(** [GET /api/rom/download] and [GET /api/save/download]; [filename] is
    the query parameter [rom] or [save]. *)
Definition download_file (directory : string) (contentType : string)
    (missing notFound : string) (context : option jsstring)
    (filename : option jsstring) (b : Bucket R) : FilesResponse :=
  match getStorePath context with
  | None | Some [] => files_unauthorized
  | Some storePath =>
      match filename with
      | None | Some [] => files_json (FilesError missing) 400
      | Some filename =>
          let key := js directory ++ js "/" ++ storePath ++ js "/" ++ filename in
          match R2_get R b key with
          | None => files_internal_error
          | Some None => files_json (FilesError notFound) 404
          | Some (Some bytes) =>
              match header_value R (js contentType),
                    header_value R (content_disposition filename) with
              | Some ct, Some cd =>
                  {| files_status := 200;
                     files_headers :=
                       [("Content-Type"%string, ct);
                        ("Content-Disposition"%string, cd)];
                     files_body := FileContent bytes |}
              | _, _ => files_internal_error
              end
          end
      end
  end.

Definition rom_download :=
  download_file "roms" "application/x-gba-rom" "Missing rom parameter"
                "ROM not found".
Definition save_download :=
  download_file "saves" "application/octet-stream" "Missing save parameter"
                "Save not found".

(** The extension test of the ROM upload. *)
Definition valid_rom_name (name : jsstring) : bool :=
  let ext := slice (toLowerCase R name) (lastIndexOf name 46) in
  existsb (jseqb ext) validExtensions.

(** [POST /api/rom/upload] and [POST /api/save/upload]; [form] is the
    field [rom] or [save] of [c.req.formData()], [None] when the body is no
    form and the call throws. A text field has no [name] and no [stream]:
    the empty text is falsy, any other makes [file.name.toLowerCase()] or
    [file.stream()] throw before anything is stored. *)
Definition upload_file (directory : string) (contentType : string)
    (missing : string) (check : jsstring -> bool)
    (context : option jsstring) (form : option (option FormValue))
    (b : Bucket R)
  : FilesResponse * Bucket R :=
  match getStorePath context with
  | None | Some [] => (files_unauthorized, b)
  | Some storePath =>
      match form with
      | None => (files_internal_error, b)
      | Some None | Some (Some (FormText [])) =>
          (files_json (FilesError missing) 400, b)
      | Some (Some (FormText (_ :: _))) => (files_internal_error, b)
      | Some (Some (FormFile file)) =>
          if negb (check (file_name file)) then
            (files_json
               (FilesError
                  "Invalid file format. Expected .gba/.gbc/.gb/.zip/.7z")
               400, b)
          else
            let key := js directory ++ js "/" ++ storePath ++ js "/"
                       ++ file_name file in
            match R2_put R b key (file_bytes file) (js contentType) with
            | None => (files_internal_error, b)
            | Some b' => (files_json (Uploaded (file_name file)) 200, b')
            end
      end
  end.

Definition rom_upload :=
  upload_file "roms" "application/x-gba-rom" "Missing rom file"
              valid_rom_name.
Definition save_upload :=
  upload_file "saves" "application/octet-stream" "Missing save file"
              (fun _ => true).

End Files.

(** ** Contracts of the bucket *)

(** A [put] changes what [get] returns for its own key only, and what
    [list] returns only under the prefixes of that key. *)
Definition put_frame (R : FilesRuntime) : Prop :=
  forall b key bytes contentType b',
    R2_put R b key bytes contentType = Some b' ->
    (forall key', key' <> key -> R2_get R b' key' = R2_get R b key') /\
    (forall prefix, startsWith key prefix = false ->
                    R2_list R b' prefix = R2_list R b prefix).

(** After a [put], [get] returns the bytes that were put. *)
Definition get_after_put (R : FilesRuntime) : Prop :=
  forall b key bytes contentType b',
    R2_put R b key bytes contentType = Some b' ->
    R2_get R b' key = Some (Some bytes).

(** A storage directory that is one path segment. *)
Definition one_segment (storePath : jsstring) : Prop :=
  Forall (fun c => c <> 47%N) storePath.

(** The directory of a route. *)
Definition route_directory (d : string) : Prop :=
  d = "roms"%string \/ d = "saves"%string.

(** A token is never verified at or after the expiry it was signed
    with, under any key. *)
Definition rejects_expired (P : Platform) : Prop :=
  forall p secret secret' now,
    (exp p <= now)%Z -> jwtVerify P (SignJWT P p secret) secret' now = None.

(** ** A bucket in memory *)

Module Memory.

Definition bucket : Type := list (jsstring * list N).

Definition list_keys (b : bucket) (prefix : jsstring) : option (list jsstring) :=
  Some (map fst (filter (fun o => startsWith (fst o) prefix) b)).

Definition get (b : bucket) (key : jsstring) : option (option (list N)) :=
  Some (option_map snd (find (fun o => jseqb (fst o) key) b)).

Definition put (b : bucket) (key : jsstring) (bytes : list N)
    (contentType : jsstring) : option bucket :=
  Some ((key, bytes) :: filter (fun o => negb (jseqb (fst o) key)) b).

(** Printable ASCII is stored as it is; anything else is refused. *)
Definition printable (v : jsstring) : option jsstring :=
  if forallb (fun c => (32 <=? c)%N && (c <? 127)%N) v then Some v else None.

(** Lower case for the letters [A-Z]. *)
Definition lower (s : jsstring) : jsstring :=
  map (fun c => if (65 <=? c)%N && (c <=? 90)%N then (c + 32)%N else c) s.

Definition runtime : FilesRuntime :=
  {| Bucket := bucket;
     R2_list := list_keys;
     R2_get := get;
     R2_put := put;
     header_value := printable;
     toLowerCase := lower |}.

Definition save : File :=
  {| file_name := js "Zelda.sav"; file_bytes := [1; 2; 3]%N |}.

Definition rom : File :=
  {| file_name := js "Zelda.GBA"; file_bytes := [7; 8]%N |}.

Definition readme : File :=
  {| file_name := js "README"; file_bytes := [9]%N |}.

End Memory.

(* ================================================================= *)
(** * The handlers, case by case *)

Section HandlerFacts.

Context (P : Platform).

Ltac unfold_m :=
  cbv beta iota zeta delta [try_catch bind ret lift fetchUserByUsername
    fetchTokenSlugByTokenId updateUserTokenFields run_update
    generateUUID] in *;
  cbn [fst snd success changes users uuids_drawn andb] in *.

(** Case analysis on a scrutinee that contains no other [match]. *)
Ltac case_inner :=
  match goal with
  | |- context [match ?x with _ => _ end] =>
      lazymatch x with
      | context [match _ with _ => _ end] => fail
      | _ => destruct x eqn:?
      end
  end.

Ltac run_cases := unfold_m; repeat (case_inner; unfold_m).

Lemma updateUserTokenFields_spec uid tokenId tokenSlug w :
  fst (updateUserTokenFields uid tokenId tokenSlug w)
  = Ok (0 <? rows_matched uid w)%Z.
Proof. reflexivity. Qed.

Lemma login_issue_spec env user now w :
  login_issue P env user now w =
  if (0 <? rows_matched (id user) w)%Z then
    match createCookie (js "refresh-tok")
            (createRefreshToken P (randomUUID P (uuids_drawn w))
               (storage_dir user) (randomUUID P (S (uuids_drawn w))) now)
            (refresh_cookie_options 25200) with
    | Ok cookie =>
        (Ok (c_json (JsonString (createAccessToken P (storage_dir user)
                                   (getJwtSecret env) now))
                    200 [("Set-Cookie"%string, cookie)]),
         rotated P (id user) w)
    | Throw e => (Throw e, rotated P (id user) w)
    end
  else (Ok internal_server_error, rotated P (id user) w).
Proof.
  unfold login_issue, rotated, rows_matched. unfold_m.
  destruct (0 <? _)%Z; [|reflexivity].
  cbn [negb]. change (7 * 60 * 60)%Z with 25200%Z.
  destruct (createCookie _ _ _); reflexivity.
Qed.

Lemma login_spec env req now w :
  login P env req now w =
  match Request_json P (body_text req) with
  | None | Some None => (Ok internal_server_error, w)
  | Some (Some body) =>
      if negb (truthy_value (cred_username body))
         || negb (truthy_value (cred_password body))
      then (Ok (c_json (JsonError "Missing credentials") 400 []), w)
      else
        match D1_bind (cred_username body) with
        | Throw _ => (Ok internal_server_error, w)
        | Ok name =>
            match find (fun u => jseqb (username u) name) (users w) with
            | None => (Ok (unauthorized "Unauthorized"), w)
            | Some user =>
                match verifyPassword P (ToString (cred_password body))
                                     (pass_hash user) with
                | Throw _ => (Ok internal_server_error, w)
                | Ok false => (Ok (unauthorized "Unauthorized"), w)
                | Ok true =>
                    (Ok (rcatch (fst (login_issue P env user now w))
                                internal_server_error),
                     snd (login_issue P env user now w))
                end
            end
        end
  end.
Proof.
  unfold login. unfold_m.
  destruct (Request_json P (body_text req)) as [[b|]|]; try reflexivity.
  destruct (negb (truthy_value (cred_username b))
            || negb (truthy_value (cred_password b))); [reflexivity|].
  destruct (D1_bind (cred_username b)) as [name|]; [|reflexivity].
  destruct (find _ _) as [u|]; [|reflexivity].
  destruct (verifyPassword P _ (pass_hash u)) as [[|]|]; try reflexivity.
  cbn [negb]. destruct (login_issue P env u now w) as [[r|e] w']; reflexivity.
Qed.

Lemma login_never_throws env req now w :
  exists resp, fst (login P env req now w) = Ok resp.
Proof.
  rewrite login_spec.
  repeat match goal with
         | |- context [match ?x with _ => _ end] => destruct x
         end; eexists; reflexivity.
Qed.

(** A login changes nothing or rotates the slot of one id. *)
Lemma login_world env req now w :
  snd (login P env req now w) = w \/
  exists uid, snd (login P env req now w) = rotated P uid w.
Proof.
  rewrite login_spec.
  repeat match goal with
         | |- context [match ?x with _ => _ end] => destruct x
         end; cbn [snd]; auto.
  right. eexists. rewrite login_issue_spec.
  repeat match goal with
         | |- context [match ?x with _ => _ end] => destruct x
         end; reflexivity.
Qed.

(** A login answered with 200 found its user, verified the password and
    rotated the slot of that user. *)
Lemma login_ok_inv env req now w resp w' :
  login P env req now w = (Ok resp, w') ->
  status resp = 200%Z ->
  exists body name user cookie,
    Request_json P (body_text req) = Some (Some body) /\
    truthy_value (cred_username body) = true /\
    truthy_value (cred_password body) = true /\
    D1_bind (cred_username body) = Ok name /\
    find (fun u => jseqb (username u) name) (users w) = Some user /\
    verifyPassword P (ToString (cred_password body)) (pass_hash user)
    = Ok true /\
    (0 < rows_matched (id user) w)%Z /\
    createCookie (js "refresh-tok")
      (createRefreshToken P (randomUUID P (uuids_drawn w))
         (storage_dir user) (randomUUID P (S (uuids_drawn w))) now)
      (refresh_cookie_options 25200) = Ok cookie /\
    resp = c_json (JsonString (createAccessToken P (storage_dir user)
                                 (getJwtSecret env) now))
                  200 [("Set-Cookie"%string, cookie)] /\
    w' = rotated P (id user) w.
Proof.
  rewrite login_spec. intros H Hs.
  destruct (Request_json P (body_text req)) as [[b|]|] eqn:Hb;
    try (inversion H; subst; discriminate).
  destruct (truthy_value (cred_username b)) eqn:Hn;
    [|inversion H; subst; discriminate].
  destruct (truthy_value (cred_password b)) eqn:Hp;
    [|inversion H; subst; discriminate].
  cbn [negb orb] in H.
  destruct (D1_bind (cred_username b)) as [name|] eqn:Hu;
    [|inversion H; subst; discriminate].
  destruct (find _ _) as [u|] eqn:Hf; [|inversion H; subst; discriminate].
  destruct (verifyPassword P _ (pass_hash u)) as [[|]|] eqn:Hv;
    try (inversion H; subst; discriminate).
  rewrite login_issue_spec in H.
  destruct (0 <? rows_matched (id u) w)%Z eqn:Hr;
    [|inversion H; subst; discriminate].
  destruct (createCookie _ _ _) as [c|] eqn:Hc;
    [|inversion H; subst; discriminate].
  cbn [fst snd rcatch] in H. inversion H; subst.
  apply Z.ltb_lt in Hr.
  exists b, name, u, c. repeat split; auto.
Qed.

Lemma logout_world w : snd (logout w) = w.
Proof. reflexivity. Qed.

(** A refresh never changes the world. *)
Lemma refresh_world env req now w : snd (refresh P env req now w) = w.
Proof. unfold refresh. run_cases; reflexivity. Qed.

Lemma refresh_never_throws env req now w :
  exists resp, fst (refresh P env req now w) = Ok resp.
Proof. unfold refresh. run_cases; eexists; reflexivity. Qed.

(** A refresh answered with 200 verified the cookie's token under the
    slug on file for its claimed [sub]. *)
Lemma refresh_ok_inv env req now w resp :
  fst (refresh P env req now w) = Ok resp ->
  status resp = 200%Z ->
  exists t payload s slug claims,
    getCookie req (js "refresh-tok") = Ok (Some t) /\
    List.length (split_fields 46 t) = 3%nat /\
    decode_payload P (nth 1 (split_fields 46 t) []) = Some (Some payload) /\
    truthy_value (raw_sub payload) = true /\
    D1_bind (raw_sub payload) = Ok s /\
    fst (fetchTokenSlugByTokenId s w) = Ok (Some slug) /\
    verifyRefreshToken P t slug now = Some claims /\
    resp = c_json (JsonString (createAccessToken P (store claims)
                                 (getJwtSecret env) now)) 200 [].
Proof.
  unfold refresh. run_cases; intros H Hs; inversion H; subst;
    try discriminate.
  do 5 eexists. repeat split; try eassumption; try reflexivity.
  - apply Nat.eqb_eq. now destruct (_ =? 3)%nat.
  - now apply negb_false_iff.
  - cbn [fst fetchTokenSlugByTokenId].
    repeat match goal with
           | H : ?x = _ |- context [?x] => rewrite H
           end.
    reflexivity.
Qed.

End HandlerFacts.

(* ================================================================= *)
(** * The signing secret *)

(** C9. When [JWT_SECRET] is absent, [getJwtSecret] returns the bytes of the
    hardcoded text [gbajs3-default-secret-change-in-production]; it does not
    fail, and every access token a login or a refresh returns under such an
    environment is signed with exactly these bytes. *)
Theorem getJwtSecret_fallback_is_constant (P : Platform) (env : Env) :
  JWT_SECRET env = None ->
  let known := js "gbajs3-default-secret-change-in-production" in
  getJwtSecret env = known /\
  (forall req now w resp,
      fst (login P env req now w) = Ok resp -> status resp = 200%Z ->
      exists storageDir,
        body resp = JsonString (SignJWT P {| sub := None; store := storageDir;
                                             exp := now + 300 |} known)) /\
  (forall req now w resp,
      fst (refresh P env req now w) = Ok resp -> status resp = 200%Z ->
      exists storageDir,
        body resp = JsonString (SignJWT P {| sub := None; store := storageDir;
                                             exp := now + 300 |} known)).
Proof.
  intros Hnone known.
  assert (Hk : getJwtSecret env = known).
  { unfold getJwtSecret. rewrite Hnone. vm_compute. reflexivity. }
  split; [exact Hk|]. split.
  - intros req now w resp H Hs.
    destruct (login P env req now w) as [r w'] eqn:E. cbn [fst] in H. subst r.
    destruct (login_ok_inv _ _ _ _ _ _ _ E Hs)
      as (b & name & u & c & _ & _ & _ & _ & _ & _ & _ & _ & Hr & _).
    exists (storage_dir u). subst resp. rewrite Hk. reflexivity.
  - intros req now w resp H Hs.
    destruct (refresh_ok_inv _ _ _ _ _ _ H Hs)
      as (t & payload & s & slug & claims & _ & _ & _ & _ & _ & _ & _ & Hr).
    exists (store claims). subst resp. rewrite Hk. reflexivity.
Qed.

Lemma getJwtSecret_fallback_is_constant_witness :
  getJwtSecret Demo.env = js "gbajs3-default-secret-change-in-production".
Proof.
  exact (proj1 (getJwtSecret_fallback_is_constant Demo.platform Demo.env eq_refl)).
Defined.

(* ================================================================= *)
(** * Login: malformed bodies and failed writes *)

(** C10. A login whose body is not JSON is answered by the handler's
    [catch]: status 500 with the body [{ error: 'Internal server error' }],
    the store untouched. The 400 [Missing credentials] is for a body that
    parses to a value other than [null] and lacks a credential; the body
    [null] is JSON, but reading [body.username] throws and it is answered
    500 as well. *)
Theorem login_unparsable_body_is_500 (P : Platform) (env : Env) (req : Request)
    (now : Z) (w : World) :
  Request_json P (body_text req) = None ->
  login P env req now w
  = (Ok (c_json (JsonError "Internal server error") 500 []), w) /\
  (forall req' b,
      Request_json P (body_text req') = Some (Some b) ->
      truthy_value (cred_username b) = false \/
      truthy_value (cred_password b) = false ->
      login P env req' now w
      = (Ok (c_json (JsonError "Missing credentials") 400 []), w)) /\
  (forall req',
      Request_json P (body_text req') = Some None ->
      login P env req' now w
      = (Ok (c_json (JsonError "Internal server error") 500 []), w)).
Proof.
  intros H. split; [|split].
  - rewrite login_spec, H. reflexivity.
  - intros req' b Hb Hm. rewrite login_spec, Hb.
    destruct Hm as [Hm|Hm]; rewrite Hm; cbn [negb orb];
      [reflexivity|now rewrite orb_true_r].
  - intros req' Hb. rewrite login_spec, Hb. reflexivity.
Qed.

Lemma login_unparsable_body_is_500_witness :
  login Demo.platform Demo.env
        {| cookie_header := None; body_text := js "username=alice" |}
        0 Demo.world
  = (Ok (c_json (JsonError "Internal server error") 500 []), Demo.world) /\
  login Demo.platform Demo.env
        {| cookie_header := None; body_text := js "{alice}" |} 0 Demo.world
  = (Ok (c_json (JsonError "Missing credentials") 400 []), Demo.world) /\
  login Demo.platform Demo.env
        {| cookie_header := None; body_text := js "null" |} 0 Demo.world
  = (Ok (c_json (JsonError "Internal server error") 500 []), Demo.world).
Proof.
  destruct (login_unparsable_body_is_500 Demo.platform Demo.env
              {| cookie_header := None; body_text := js "username=alice" |}
              0 Demo.world eq_refl) as (H1 & H2 & H3).
  split; [exact H1|]. split.
  - apply (H2 {| cookie_header := None; body_text := js "{alice}" |}
              {| cred_username := Str (js "alice"); cred_password := Falsy |}).
    + vm_compute. reflexivity.
    + right. reflexivity.
  - apply (H3 {| cookie_header := None; body_text := js "null" |}).
    vm_compute. reflexivity.
Defined.

Lemma map_unmatched {A} (p : A -> bool) (f : A -> A) (l : list A) :
  filter p l = [] -> map (fun a => if p a then f a else a) l = l.
Proof.
  induction l as [|a l IH]; cbn; [reflexivity|].
  destruct (p a); [discriminate|]. intros H. now rewrite IH.
Qed.

(** C6. When the UPDATE of a login matches no row, the handler answers 500
    with the body [{ error: 'Internal server error' }] and no [Set-Cookie]
    header, so neither token is returned, and the table is as it was.
    Conversely, a login response that carries a token or a cookie comes
    from an UPDATE that matched a row. *)
Theorem login_failed_write_issues_nothing (P : Platform) (env : Env)
    (user : User) (now : Z) (w : World) :
  fst (updateUserTokenFields (id user) (randomUUID P (uuids_drawn w))
         (randomUUID P (S (uuids_drawn w))) w) = Ok false ->
  fst (login_issue P env user now w)
  = Ok (c_json (JsonError "Internal server error") 500 []) /\
  users (snd (login_issue P env user now w)) = users w /\
  (forall req resp w',
      login P env req now w = (Ok resp, w') ->
      headers resp <> [] \/ (exists t, body resp = JsonString t) ->
      exists u, (0 < rows_matched (id u) w)%Z /\ w' = rotated P (id u) w).
Proof.
  rewrite updateUserTokenFields_spec. intros H.
  assert (Hz : (0 <? rows_matched (id user) w)%Z = false) by congruence.
  rewrite login_issue_spec, Hz. cbn [fst snd]. repeat split.
  - unfold rotated. cbn [users]. apply map_unmatched.
    unfold rows_matched in Hz. apply Z.ltb_ge in Hz.
    destruct (filter _ (users w)); [reflexivity|cbn in Hz; lia].
  - intros req resp w' E Ht.
    assert (Hs : status resp = 200%Z).
    { rewrite login_spec in E.
      repeat match type of E with
             | context [match ?x with _ => _ end] => destruct x eqn:?
             end;
        try (inversion E; subst; cbn in Ht;
             destruct Ht as [Ht|[t Ht]]; congruence).
      rewrite login_issue_spec in E.
      repeat match type of E with
             | context [match ?x with _ => _ end] => destruct x eqn:?
             end;
        inversion E; subst; cbn in *; try reflexivity;
        destruct Ht as [Ht|[t Ht]]; congruence. }
    destruct (login_ok_inv _ _ _ _ _ _ _ E Hs)
      as (b & name & u & c & _ & _ & _ & _ & _ & _ & Hm & _ & _ & Hw).
    exists u. auto.
Qed.

Lemma login_failed_write_issues_nothing_witness :
  fst (login_issue Demo.platform Demo.env Demo.alice 0
         {| users := [Demo.bob]; uuids_drawn := 0 |})
  = Ok (c_json (JsonError "Internal server error") 500 []).
Proof.
  exact (proj1 (login_failed_write_issues_nothing Demo.platform Demo.env
                  Demo.alice 0 {| users := [Demo.bob]; uuids_drawn := 0 |}
                  eq_refl)).
Defined.

(* ================================================================= *)
(** * Refresh *)








(* ================================================================= *)
(** * Password hashes *)

(** Division and remainder by a constant are linear for [lia]. *)
Ltac Zify.zify_post_hook ::= Z.to_euclidean_division_equations.

Section Base64Facts.

Import Base64.

Lemma list_ind3 {A} (Q : list A -> Prop) :
  Q [] -> (forall a, Q [a]) -> (forall a b, Q [a; b]) ->
  (forall a b c l, Q l -> Q (a :: b :: c :: l)) ->
  forall l, Q l.
Proof.
  intros H0 H1 H2 H3.
  fix IH 1. intros [|a [|b [|c l]]];
    [exact H0 | apply H1 | apply H2 | apply H3, IH].
Qed.

Lemma value_of_char_of v : (v < 64)%N -> value_of (char_of v) = Some v.
Proof.
  intros Hv. unfold char_of, value_of.
  repeat match goal with
         | |- context [(?a <? ?b)%N] => destruct (N.ltb_spec a b)
         | |- context [(?a <=? ?b)%N] => destruct (N.leb_spec a b)
         | |- context [(?a =? ?b)%N] => destruct (N.eqb_spec a b)
         end; cbn [andb]; try lia; f_equal; lia.
Qed.

Lemma char_of_plain v : plain (char_of v).
Proof.
  unfold plain, char_of, is_ascii_whitespace.
  repeat match goal with
         | |- context [(?a <? ?b)%N] => destruct (N.ltb_spec a b)
         | |- context [(?a =? ?b)%N] => destruct (N.eqb_spec a b)
         end; cbn [orb]; repeat split; try lia; try reflexivity.
Qed.

Lemma drop_trailing_pad_cons c s :
  c <> 61%N -> drop_trailing_pad (c :: s) = c :: drop_trailing_pad s.
Proof.
  intros Hc. cbn.
  destruct c as [|p]; [reflexivity|].
  do 6 (destruct p as [p|p|]; try reflexivity). congruence.
Qed.

Lemma encode_length_mod4 l : (List.length (encode l) mod 4 = 0)%nat.
Proof.
  induction l as [| | |a b c l IH] using list_ind3; try reflexivity.
  cbn [encode List.length]. set (n := List.length (encode l)) in *.
  replace (S (S (S (S n)))) with (n + 1 * 4)%nat by lia.
  rewrite Nat.Div0.mod_add. exact IH.
Qed.

Lemma encode_no_whitespace l :
  filter (fun c => negb (is_ascii_whitespace c)) (encode l) = encode l.
Proof.
  induction l as [| | |a b c l IH] using list_ind3; try reflexivity;
    cbn [encode filter];
    repeat match goal with
           | |- context [is_ascii_whitespace (char_of ?v)] =>
               rewrite (proj2 (proj2 (proj2 (char_of_plain v))))
           end; cbn [negb]; try reflexivity.
  now rewrite IH.
Qed.

Lemma triple_bytes a b c :
  (a < 256 -> b < 256 -> c < 256 ->
   a / 4 * 4 + (a mod 4 * 16 + b / 16) / 16 = a /\
   (a mod 4 * 16 + b / 16) mod 16 * 16 + (b mod 16 * 4 + c / 64) / 4 = b /\
   (b mod 16 * 4 + c / 64) mod 4 * 64 + c mod 64 = c /\
   a / 4 < 64 /\ a mod 4 * 16 + b / 16 < 64 /\
   b mod 16 * 4 + c / 64 < 64 /\ c mod 64 < 64)%N.
Proof.
  intros Ha Hb Hc.
  repeat split; lia.
Qed.


Lemma sextets_drop_encode l :
  Forall (fun b => b < 256)%N l ->
  exists vs, sextets (drop_trailing_pad (encode l)) = Some vs /\
             decode vs = l /\
             (List.length (drop_trailing_pad (encode l)) mod 4 <> 1)%nat.
Proof.
  induction l as [|a|a b|a b c l IH] using list_ind3; intros Hl.
  - exists []. repeat split. cbn. lia.
  - inversion Hl as [|? ? Ha _]; subst.
    destruct (triple_bytes a 0 0 Ha) as (E1 & _ & _ & B1 & B2 & _);
      try lia.
    cbn [encode]. unfold pad.
    rewrite !drop_trailing_pad_cons by apply char_of_plain.
    cbn [drop_trailing_pad sextets].
    replace (a mod 4 * 16)%N with (a mod 4 * 16 + 0 / 16)%N by (cbn; lia).
    rewrite !value_of_char_of by assumption.
    eexists; repeat split. cbn [decode]. now rewrite E1.
    cbn. lia.
  - inversion Hl as [|? ? Ha Hl']; subst.
    inversion Hl' as [|? ? Hb _]; subst.
    destruct (triple_bytes a b 0 Ha Hb) as (E1 & E2 & _ & B1 & B2 & B3 & _);
      try lia.
    cbn [encode]. unfold pad.
    rewrite !drop_trailing_pad_cons by apply char_of_plain.
    cbn [drop_trailing_pad sextets].
    replace (b mod 16 * 4)%N with (b mod 16 * 4 + 0 / 64)%N by (cbn; lia).
    rewrite !value_of_char_of by assumption.
    eexists; repeat split. cbn [decode]. now rewrite E1, E2.
    cbn. lia.
  - inversion Hl as [|? ? Ha Hl1]; subst.
    inversion Hl1 as [|? ? Hb Hl2]; subst.
    inversion Hl2 as [|? ? Hc Hl3]; subst.
    destruct (IH Hl3) as (vs & Hs & Hd & Hm).
    destruct (triple_bytes a b c Ha Hb Hc)
      as (E1 & E2 & E3 & B1 & B2 & B3 & B4).
    cbn [encode].
    rewrite !drop_trailing_pad_cons by apply char_of_plain.
    cbn [sextets]. rewrite !value_of_char_of by assumption. rewrite Hs.
    eexists; repeat split.
    + cbn [decode]. now rewrite E1, E2, E3, Hd.
    + cbn [List.length].
      set (n := List.length (drop_trailing_pad (encode l))) in *.
      replace (S (S (S (S n)))) with (n + 1 * 4)%nat by lia.
      now rewrite Nat.Div0.mod_add.
Qed.

(** Decoding what [btoa] made of bytes gives the bytes back. *)
Lemma atob_encode l :
  Forall (fun b => b < 256)%N l -> atob (encode l) = Ok l.
Proof.
  intros Hl. unfold atob, strip_padding.
  rewrite encode_no_whitespace, encode_length_mod4. cbn [Nat.eqb].
  destruct (sextets_drop_encode l Hl) as (vs & Hs & Hd & Hm).
  apply Nat.eqb_neq in Hm. rewrite Hm, Hs, Hd. reflexivity.
Qed.

Lemma btoa_bytes l :
  Forall (fun b => b < 256)%N l -> btoa l = Ok (encode l).
Proof.
  intros Hl. unfold btoa.
  replace (forallb (fun c => c <? 256)%N l) with true; [reflexivity|].
  symmetry. apply forallb_forall. intros x Hx.
  apply N.ltb_lt. rewrite Forall_forall in Hl. auto.
Qed.

Lemma encode_no_colon l : Forall (fun c => c <> 58%N) (encode l).
Proof.
  induction l as [| | |a b c l IH] using list_ind3; cbn [encode];
    repeat (constructor; try apply char_of_plain; try discriminate).
  exact IH.
Qed.

Lemma encode_head a l :
  exists v s, encode (a :: l) = char_of v :: s.
Proof. destruct l as [|b [|c l]]; cbn [encode]; eauto. Qed.

End Base64Facts.

Lemma split_without_separator sep s :
  Forall (fun c => c <> sep) s -> split sep s = (s, []).
Proof.
  induction 1 as [|c s Hc _ IH]; cbn [split]; [reflexivity|].
  rewrite IH. apply N.eqb_neq in Hc. now rewrite Hc.
Qed.

Lemma split_at_separator sep a b :
  Forall (fun c => c <> sep) a ->
  split sep (a ++ sep :: b) = (a, fst (split sep b) :: snd (split sep b)).
Proof.
  induction 1 as [|c s Hc _ IH]; cbn [split app].
  - destruct (split sep b). now rewrite N.eqb_refl.
  - rewrite IH. apply N.eqb_neq in Hc. now rewrite Hc.
Qed.

Lemma Uint8Array_from_bytes l :
  Forall (fun b => b < 256)%N l -> Uint8Array_from l = l.
Proof.
  induction 1 as [|b l Hb _ IH]; cbn; [reflexivity|].
  rewrite N.mod_small by assumption. unfold Uint8Array_from in IH.
  now rewrite IH.
Qed.

Lemma xor_fold_same l : xor_fold l l = 0%N.
Proof.
  unfold xor_fold.
  assert (H : forall acc,
             fold_left (fun result ab => N.lor result (N.lxor (fst ab) (snd ab)))
                       (combine l l) acc = acc).
  { induction l as [|a l IH]; intros acc; cbn; [reflexivity|].
    rewrite N.lxor_nilpotent, N.lor_0_r. apply IH. }
  apply H.
Qed.

(** C4. A password verifies against the hash [hashPassword] stored for it:
    the stored text is [btoa(salt):btoa(digest)], [verifyPassword] decodes
    the same salt, derives the same digest with the same parameters and
    the comparison finds no differing byte. The salt is the 16 random bytes
    of [hashPassword]. *)
Theorem verifyPassword_accepts_hashPassword (P : Platform)
    (password : jsstring) (salt : list N) :
  derives_32_bytes P ->
  List.length salt = 16%nat ->
  Forall (fun b => b < 256)%N salt ->
  exists storedHash,
    hashPassword P password salt = Ok storedHash /\
    verifyPassword P password storedHash = Ok true.
Proof.
  intros HP Hlen Hsalt.
  destruct (HP (TextEncoder_encode password) salt 100000%N) as [Hdl Hdb].
  remember (deriveBits P (TextEncoder_encode password) salt 100000 256)
    as digest eqn:Ed.
  exists (Base64.encode salt ++ js ":" ++ Base64.encode digest). split.
  - unfold hashPassword, String_fromCharCode. rewrite <- Ed.
    now rewrite !btoa_bytes by assumption.
  - unfold verifyPassword. change (js ":") with [58%N]. cbn [app].
    destruct salt as [|a salt']; [discriminate|].
    destruct digest as [|d digest']; [discriminate|].
    destruct (encode_head a salt') as (v & s & Es).
    destruct (encode_head d digest') as (v' & s' & Ed').
    assert (Hst : startsWith (Base64.encode (a :: salt') ++
                              58%N :: Base64.encode (d :: digest'))
                             (js "$2") = false).
    { rewrite Es. cbn. destruct (char_of_plain v) as [H36 _].
      apply N.eqb_neq in H36. now rewrite H36. }
    rewrite Hst.
    rewrite split_at_separator by apply encode_no_colon.
    rewrite split_without_separator by apply encode_no_colon.
    cbn [fst snd hd_error].
    rewrite Es at 1. rewrite Ed' at 1. cbn [truthy negb orb].
    rewrite !atob_encode by assumption. cbn [rbind].
    rewrite !Uint8Array_from_bytes by assumption.
    rewrite <- Ed. rewrite Nat.eqb_refl. cbn [negb].
    now rewrite xor_fold_same.
Qed.

(** C3, at a stored hash whose salt field is no base64: [atob] throws and
    [verifyPassword] throws with it, where the claim has it return false;
    the same happens when the digest field is no base64. *)
Theorem verifyPassword_throws_on_undecodable_field (P : Platform)
    (password : jsstring) :
  verifyPassword P password (js "!!!:AAAA") = Throw InvalidCharacterError /\
  verifyPassword P password (js "AAAA:!!!") = Throw InvalidCharacterError.
Proof. split; reflexivity. Qed.

(** Only the first two fields of the stored text are read: a third field
    does not make the hash malformed for [verifyPassword]. *)
Example verifyPassword_reads_two_fields :
  verifyPassword Demo.platform (js "correct-password")
                 (Demo.alice_hash ++ js ":extra") = Ok true.
Proof. vm_compute. reflexivity. Qed.

(* ================================================================= *)
(** * The cookie of a login *)

Lemma unreserved_no_surrogate c :
  URI.unreserved c = true ->
  Unicode.is_high_surrogate c = false /\ Unicode.is_low_surrogate c = false.
Proof.
  intros H.
  assert (Hc : (c < 128)%N).
  { unfold URI.unreserved in H.
    rewrite !orb_true_iff, !andb_true_iff, !N.leb_le, !N.eqb_eq in H. lia. }
  unfold Unicode.is_high_surrogate, Unicode.is_low_surrogate.
  split; apply andb_false_iff; left; apply N.leb_gt; lia.
Qed.

(** [encodeURIComponent] leaves a string of unreserved characters as it
    is. *)
Lemma encodeURIComponent_unreserved s :
  Forall (fun c => URI.unreserved c = true) s ->
  URI.encodeURIComponent s = Ok s.
Proof.
  unfold URI.encodeURIComponent.
  induction 1 as [|c s Hc _ IH]; [reflexivity|].
  destruct (unreserved_no_surrogate c Hc) as [Hh Hl].
  cbn [Unicode.code_points]. rewrite Hh, Hl.
  cbn [URI.encode_points]. rewrite IH. cbn [rbind]. now rewrite Hc.
Qed.

Lemma find_some_matches (f : User -> bool) (w : World) (u : User) :
  find f (users w) = Some u -> (0 < rows_matched (id u) w)%Z.
Proof.
  intros H. apply find_some in H. destruct H as [Hin _].
  unfold rows_matched.
  assert (Hi : In u (filter (fun u0 => id u0 =? id u)%Z (users w))).
  { apply filter_In. split; [assumption|apply Z.eqb_refl]. }
  destruct (filter _ (users w)); [contradiction|cbn; lia].
Qed.

(** C5. A login with non-empty credentials, whose user is found and whose
    password verifies, is answered 200; the body is the access token over
    the [storage_dir] of the user's row, and the only header is
    [Set-Cookie: refresh-tok=<refresh token>; Path=/api/tokens/refresh;
    Max-Age=25200; HttpOnly; Secure; SameSite=Strict], the refresh token
    being the one minted for the two identifiers just drawn. *)
Theorem login_success_response (P : Platform) (env : Env) (req : Request)
    (now : Z) (w : World) (b : Credentials) (name password : jsstring)
    (user : User) :
  compact_tokens P ->
  Request_json P (body_text req) = Some (Some b) ->
  cred_username b = Str name -> truthy name = true ->
  cred_password b = Str password -> truthy password = true ->
  fst (fetchUserByUsername name w) = Ok (Some user) ->
  verifyPassword P password (pass_hash user) = Ok true ->
  let accessToken :=
    SignJWT P {| sub := None; store := storage_dir user; exp := now + 300 |}
            (getJwtSecret env) in
  let refreshToken :=
    SignJWT P {| sub := Some (randomUUID P (uuids_drawn w));
                 store := storage_dir user; exp := now + 25200 |}
            (TextEncoder_encode (randomUUID P (S (uuids_drawn w)))) in
  fst (login P env req now w)
  = Ok {| status := 200;
          headers :=
            [("Set-Cookie"%string,
              js "refresh-tok=" ++ refreshToken ++
              js "; Path=/api/tokens/refresh; Max-Age=25200; HttpOnly; Secure; SameSite=Strict")];
          body := JsonString accessToken |}.
Proof.
  intros HP Hb Hu Hn Hp Hpw Hf Hv accessToken refreshToken.
  cbn [fst fetchUserByUsername] in Hf. injection Hf as Hf.
  rewrite login_spec, Hb, Hu, Hp. cbn [truthy_value D1_bind ToString].
  rewrite Hn, Hpw. cbn [negb orb].
  rewrite Hf, Hv, login_issue_spec.
  pose proof (find_some_matches _ w user Hf) as Hm.
  apply Z.ltb_lt in Hm. rewrite Hm.
  unfold createCookie, createRefreshToken.
  change (7 * 60 * 60)%Z with 25200%Z. fold refreshToken.
  rewrite (encodeURIComponent_unreserved refreshToken) by apply HP.
  cbn [rbind fst rcatch refresh_cookie_options path maxAge httpOnly secure
       sameSite].
  unfold createAccessToken. change (5 * 60)%Z with 300%Z. fold accessToken.
  reflexivity.
Qed.

(* ================================================================= *)
(** * Rotation of the refresh slot *)

Section Rotation.

Context (P : Platform) (env : Env).

Lemma step_world w ev :
  step P env w ev = w \/ exists uid, step P env w ev = rotated P uid w.
Proof.
  unfold step. destruct ev as [req now| |req now]; cbn [handle].
  - apply login_world.
  - left. apply logout_world.
  - left. apply refresh_world.
Qed.

Lemma run_invariant (I : World -> Prop) :
  (forall uid w, I w -> I (rotated P uid w)) ->
  forall evs w, I w -> I (run P env evs w).
Proof.
  intros Hrot. unfold run.
  induction evs as [|ev evs IH]; intros w Hw; cbn [fold_left]; [assumption|].
  apply IH. destruct (step_world w ev) as [E|[uid E]]; rewrite E; auto.
Qed.

Lemma reachable_invariant (I : World -> Prop) :
  (forall w, initial w -> I w) ->
  (forall uid w, I w -> I (rotated P uid w)) ->
  forall w, reachable P env w -> I w.
Proof.
  intros Hinit Hrot w H.
  induction H as [w Hw|w ev _ IH]; [auto|].
  destruct (step_world w ev) as [E|[uid E]]; rewrite E; auto.
Qed.

(** ** What a rotation keeps *)

Lemma rotated_ids uid w : map id (users (rotated P uid w)) = map id (users w).
Proof.
  unfold rotated. cbn [users]. rewrite map_map. apply map_ext.
  intros u. now destruct (id u =? uid)%Z.
Qed.

Lemma rotated_find name uid w :
  find (fun u => jseqb (username u) name) (users (rotated P uid w))
  = option_map (fun u => if (id u =? uid)%Z
                         then set_tokens (randomUUID P (uuids_drawn w))
                                         (randomUUID P (S (uuids_drawn w))) u
                         else u)
               (find (fun u => jseqb (username u) name) (users w)).
Proof.
  unfold rotated. cbn [users].
  induction (users w) as [|u l IH]; cbn [map find option_map]; [reflexivity|].
  assert (E : username (if (id u =? uid)%Z
                        then set_tokens (randomUUID P (uuids_drawn w))
                               (randomUUID P (S (uuids_drawn w))) u
                        else u) = username u)
    by now destruct (id u =? uid)%Z.
  rewrite E. destruct (jseqb (username u) name); [reflexivity|exact IH].
Qed.

(** The id of the row a username finds is the same after a rotation. *)
Lemma rotated_finds name uid uid' w :
  finds name uid w -> finds name uid (rotated P uid' w).
Proof.
  unfold finds. rewrite rotated_find.
  destruct (find _ (users w)) as [u|]; cbn [option_map]; [|discriminate].
  now destruct (id u =? uid')%Z.
Qed.

(** ** Slugs on file *)

Lemma in_rotated u' uid w :
  In u' (users (rotated P uid w)) ->
  exists u, In u (users w) /\ id u' = id u /\
    (id u = uid /\ token_slug u' = Some (randomUUID P (S (uuids_drawn w)))
     \/ id u <> uid /\ token_slug u' = token_slug u).
Proof.
  unfold rotated. cbn [users]. intros H. apply in_map_iff in H.
  destruct H as (u & <- & Hin). exists u. split; [assumption|].
  destruct (Z.eqb_spec (id u) uid); cbn; auto.
Qed.

Lemma initial_slugs_drawn w : initial w -> slugs_drawn P w.
Proof.
  intros [_ Hnull] u x Hin Hx. rewrite Forall_forall in Hnull.
  destruct (Hnull u Hin) as [_ Hs]. congruence.
Qed.

Lemma rotated_slugs_drawn uid w :
  slugs_drawn P w -> slugs_drawn P (rotated P uid w).
Proof.
  intros H u' x Hin Hx.
  destruct (in_rotated _ _ _ Hin) as (u & Hu & _ & [[_ Hs]|[_ Hs]]);
    rewrite Hs in Hx.
  - injection Hx as <-. exists (S (uuids_drawn w)). cbn. split; [lia|auto].
  - destruct (H u x Hu Hx) as (k & Hk & ->). exists k. cbn. split; [lia|auto].
Qed.

Lemma reachable_slugs_drawn w : reachable P env w -> slugs_drawn P w.
Proof.
  apply reachable_invariant;
    [apply initial_slugs_drawn | intros; now apply rotated_slugs_drawn].
Qed.

(** After the rotation for [uid], the slug it stored is on file at most
    in the rows of [uid]. *)
Lemma rotated_slug_elsewhere uid w :
  slugs_drawn P w ->
  slugs_avoid P (S (uuids_drawn w)) (fun i => i <> uid) (rotated P uid w).
Proof.
  intros H u' x Hin Hsel Hx.
  destruct (in_rotated _ _ _ Hin) as (u & Hu & Hid & [[Hi _]|[_ Hs]]).
  - congruence.
  - rewrite Hs in Hx. destruct (H u x Hu Hx) as (k & Hk & ->).
    exists k. split; [lia|reflexivity].
Qed.

(** A later rotation, for whatever id, stores a later identifier. *)
Lemma rotated_slugs_avoid m sel uid w :
  (m < uuids_drawn w)%nat /\ slugs_avoid P m sel w ->
  (m < uuids_drawn (rotated P uid w))%nat /\
  slugs_avoid P m sel (rotated P uid w).
Proof.
  intros [Hm H]. split; [cbn; lia|].
  intros u' x Hin Hsel Hx.
  destruct (in_rotated _ _ _ Hin) as (u & Hu & Hid & [[_ Hs]|[_ Hs]]);
    rewrite Hs in Hx.
  - injection Hx as <-. exists (S (uuids_drawn w)). split; [lia|reflexivity].
  - rewrite Hid in Hsel. exact (H u x Hu Hsel Hx).
Qed.

(** A rotation for [uid] removes the slug from the rows of [uid]. *)
Lemma rotated_slug_gone m uid w :
  (m < uuids_drawn w)%nat ->
  slugs_avoid P m (fun i => i <> uid) w ->
  slugs_avoid P m (fun _ => True) (rotated P uid w).
Proof.
  intros Hm H u' x Hin _ Hx.
  destruct (in_rotated _ _ _ Hin) as (u & Hu & Hid & [[_ Hs]|[Hne Hs]]);
    rewrite Hs in Hx.
  - injection Hx as <-. exists (S (uuids_drawn w)). split; [lia|reflexivity].
  - exact (H u x Hu Hne Hx).
Qed.

(** A token signed under a slug that is on file nowhere is refused. *)
Lemma refresh_refuses_absent_slug m w p req now :
  slug_binding P ->
  slugs_avoid P m (fun _ => True) w ->
  object_payload P (SignJWT P p (TextEncoder_encode (randomUUID P m))) = true ->
  getCookie req (js "refresh-tok")
  = Ok (Some (SignJWT P p (TextEncoder_encode (randomUUID P m)))) ->
  exists msg, fst (refresh P env req now w) = Ok (c_json (JsonError msg) 401 []).
Proof.
  intros Hbind Havoid Hobj Hc. unfold refresh.
  cbv beta iota zeta delta [try_catch bind ret lift fetchTokenSlugByTokenId].
  rewrite Hc. unfold object_payload in Hobj.
  destruct (SignJWT P p _) as [|c t] eqn:Et; [eexists; reflexivity|].
  destruct (negb (_ =? 3)%nat); [eexists; reflexivity|].
  destruct (decode_payload P _) as [[payload|]|];
    [|discriminate|eexists; reflexivity].
  destruct (raw_sub payload) as [|[|c' s]|b x];
    try discriminate; try (eexists; reflexivity).
  cbn [truthy_value truthy negb D1_bind].
  destruct (find _ (users w)) as [u|] eqn:Hf; [|eexists; reflexivity].
  destruct (token_slug u) as [[|c'' k]|] eqn:Hs; try (eexists; reflexivity).
  apply find_some in Hf. destruct Hf as [Hin _].
  destruct (Havoid u _ Hin I Hs) as (j & Hj & Ej).
  unfold verifyRefreshToken. rewrite Ej, <- Et.
  destruct (jwtVerify P _ _ now) as [claims|] eqn:Hv; [|eexists; reflexivity].
  apply Hbind in Hv. congruence.
Qed.

(** And it is never accepted, whatever its payload is. *)
Lemma refresh_never_accepts_absent_slug m w p req now resp :
  slug_binding P ->
  slugs_avoid P m (fun _ => True) w ->
  getCookie req (js "refresh-tok")
  = Ok (Some (SignJWT P p (TextEncoder_encode (randomUUID P m)))) ->
  fst (refresh P env req now w) = Ok resp -> status resp <> 200%Z.
Proof.
  intros Hbind Havoid Hc H Hs.
  destruct (refresh_ok_inv _ _ _ _ _ _ H Hs)
    as (t & payload & s & slug & claims & Hc' & _ & _ & _ & _ & Hf & Hv & _).
  rewrite Hc in Hc'. injection Hc' as <-.
  cbn [fst fetchTokenSlugByTokenId] in Hf. injection Hf as Hf.
  destruct (find _ (users w)) as [u|] eqn:Hu; [|discriminate].
  apply find_some in Hu. destruct Hu as [Hin _].
  destruct (Havoid u _ Hin I Hf) as (j & Hj & ->).
  unfold verifyRefreshToken in Hv. apply Hbind in Hv. congruence.
Qed.

Lemma NoDup_map_eq {A B} (f : A -> B) (l : list A) (a a' : A) :
  NoDup (map f l) -> In a l -> In a' l -> f a = f a' -> a = a'.
Proof.
  induction l as [|x l IH]; cbn; [contradiction|].
  intros Hnd Ha Ha' E. inversion Hnd as [|? ? Hx Hnd']; subst.
  destruct Ha as [<-|Ha], Ha' as [<-|Ha']; auto.
  - exfalso. apply Hx. rewrite E. now apply in_map.
  - exfalso. apply Hx. rewrite <- E. now apply in_map.
Qed.

Lemma reachable_ids_distinct w : reachable P env w -> NoDup (map id (users w)).
Proof.
  apply reachable_invariant with (I := fun w => NoDup (map id (users w))).
  - now intros w0 [H _].
  - intros uid w0 H. now rewrite rotated_ids.
Qed.


(** C1. At every reachable state a user has at most one slot on file.
    And when a user logs in, and later logs in again, the refresh token
    of the first login is never accepted again, at any time, also before
    its expiry: the slug it was signed under is on file for no row, so
    either its claimed [sub] finds no slug or the verification under the
    slug found fails. The answer is 401 for a token whose payload is an
    object ([object_payload]), as the payload of a token of [jose] is. *)
Theorem rotation_invalidates_previous_refresh_token :
  slug_binding P ->
  forall w0, reachable P env w0 ->
  (forall uid t s t' s',
      user_slot w0 uid t s -> user_slot w0 uid t' s' -> t = t' /\ s = s') /\
  (forall req1 now1 resp1 w1 between req2 now2 resp2 w2 later
          name u1 tokenId1 tokenSlug1 req3 now3,
      login P env req1 now1 w0 = (Ok resp1, w1) -> status resp1 = 200%Z ->
      login P env req2 now2 (run P env between w1) = (Ok resp2, w2) ->
      status resp2 = 200%Z ->
      option_map (option_map cred_username) (Request_json P (body_text req1))
      = Some (Some (Str name)) ->
      option_map (option_map cred_username) (Request_json P (body_text req2))
      = Some (Some (Str name)) ->
      fst (fetchUserByUsername name w1) = Ok (Some u1) ->
      token_id u1 = Some tokenId1 -> token_slug u1 = Some tokenSlug1 ->
      getCookie req3 (js "refresh-tok")
      = Ok (Some (createRefreshToken P tokenId1 (storage_dir u1)
                                     tokenSlug1 now1)) ->
      (forall resp,
          fst (refresh P env req3 now3 (run P env later w2)) = Ok resp ->
          status resp <> 200%Z) /\
      (object_payload P (createRefreshToken P tokenId1 (storage_dir u1)
                                            tokenSlug1 now1) = true ->
       exists m,
         fst (refresh P env req3 now3 (run P env later w2))
         = Ok (c_json (JsonError m) 401 []))).
Proof.
  intros Hbind w0 Hreach. split.
  - intros uid t s t' s' (u & Hu & Hi & Ht & Hs) (u' & Hu' & Hi' & Ht' & Hs').
    assert (u = u').
    { eapply NoDup_map_eq with (f := id);
        eauto using reachable_ids_distinct. congruence. }
    subst u'. split; congruence.
  - intros req1 now1 resp1 w1 between req2 now2 resp2 w2 later
           name u1 tokenId1 tokenSlug1 req3 now3
           L1 S1 L2 S2 N1 N2 F1 T1 G1 Hc.
    destruct (login_ok_inv _ _ _ _ _ _ _ L1 S1)
      as (b1 & n1 & user1 & c1 & Hb1 & _ & _ & Hn1 & Hf1 & _ & _
          & _ & _ & Hw1).
    destruct (login_ok_inv _ _ _ _ _ _ _ L2 S2)
      as (b2 & n2 & user2 & c2 & Hb2 & _ & _ & Hn2 & Hf2 & _ & _
          & _ & _ & Hw2).
    rewrite Hb1 in N1. cbn in N1. injection N1 as N1.
    rewrite N1 in Hn1. cbn in Hn1. injection Hn1 as <-.
    rewrite Hb2 in N2. cbn in N2. injection N2 as N2.
    rewrite N2 in Hn2. cbn in Hn2. injection Hn2 as <-.
    set (uid := id user1) in *.
    set (m := S (uuids_drawn w0)).
    (* the slug of the first login *)
    assert (G : tokenSlug1 = randomUUID P m).
    { cbn [fst fetchUserByUsername] in F1. injection F1 as F1.
      rewrite Hw1, rotated_find, Hf1 in F1. cbn [option_map] in F1.
      fold uid in F1. rewrite Z.eqb_refl in F1.
      injection F1 as <-. cbn in G1. unfold m. congruence. }
    (* the second login is for the same id *)
    assert (Hfinds : finds name uid (run P env between w1)).
    { apply run_invariant; [intros; now apply rotated_finds|].
      rewrite Hw1. apply rotated_finds. unfold finds. now rewrite Hf1. }
    assert (Hid2 : id user2 = uid).
    { unfold finds in Hfinds. rewrite Hf2 in Hfinds. now injection Hfinds. }
    (* the slug is on file only for that id, until the second login *)
    assert (Hbetween : (m < uuids_drawn (run P env between w1))%nat /\
                       slugs_avoid P m (fun i => i <> uid)
                                   (run P env between w1)).
    { apply run_invariant with
        (I := fun w => (m < uuids_drawn w)%nat /\
                       slugs_avoid P m (fun i => i <> uid) w);
        [intros; now apply rotated_slugs_avoid|].
      rewrite Hw1. split; [cbn; lia|].
      apply rotated_slug_elsewhere. now apply reachable_slugs_drawn. }
    (* and on file nowhere from then on *)
    assert (Hlater : (m < uuids_drawn (run P env later w2))%nat /\
                     slugs_avoid P m (fun _ => True) (run P env later w2)).
    { apply run_invariant with
        (I := fun w => (m < uuids_drawn w)%nat /\
                       slugs_avoid P m (fun _ => True) w);
        [intros; now apply rotated_slugs_avoid|].
      rewrite Hw2, Hid2. destruct Hbetween as [Hm Ha].
      split; [cbn; lia|]. now apply rotated_slug_gone. }
    destruct Hlater as [_ Hgone].
    unfold createRefreshToken in *. rewrite G in *. split.
    + intros resp. eapply refresh_never_accepts_absent_slug; eassumption.
    + intros Hobj. eapply refresh_refuses_absent_slug; eassumption.
Qed.

End Rotation.

(* ================================================================= *)
(** * The executable platform meets the contracts *)

Section DemoFacts.

Import Demo.

Lemma jseqb_length a b : jseqb a b = true -> List.length a = List.length b.
Proof.
  revert b. induction a as [|x a IH]; intros [|y b]; cbn;
    try discriminate; [reflexivity|].
  intros H. apply andb_true_iff in H. destruct H as [_ H].
  now rewrite (IH b H).
Qed.

Lemma letters_length l : List.length (letters l) = (2 * List.length l)%nat.
Proof.
  unfold letters. induction l as [|b l IH]; cbn [flat_map List.length app];
    [reflexivity|]. rewrite IH. lia.
Qed.

Lemma letters_range l : Forall (fun c => 97 <= c <= 112)%N (letters l).
Proof.
  unfold letters. induction l as [|b l IH]; cbn [flat_map app];
    [constructor|]. repeat constructor; try lia. exact IH.
Qed.

Lemma letters_unreserved l :
  Forall (fun c => URI.unreserved c = true) (letters l).
Proof.
  eapply Forall_impl; [|apply letters_range]. cbn beta. intros c Hc.
  unfold URI.unreserved.
  rewrite !orb_true_iff, !andb_true_iff, !N.leb_le, !N.eqb_eq. lia.
Qed.

Lemma letters_no_dot l : Forall (fun c => c <> 46%N) (letters l).
Proof.
  eapply Forall_impl; [|apply letters_range]. cbn beta. intros c Hc. lia.
Qed.

Lemma demo_compact_tokens : compact_tokens platform.
Proof.
  intros p secret. cbn [SignJWT platform]. unfold sign.
  repeat (apply Forall_app; split); try apply letters_unreserved;
    repeat constructor.
Qed.

Lemma code_points_ascii s :
  Forall (fun c => c < 128)%N s -> Unicode.code_points s = map Some s.
Proof.
  induction 1 as [|c s Hc _ IH]; [reflexivity|].
  cbn [Unicode.code_points map].
  replace (Unicode.is_high_surrogate c) with false
    by (symmetry; apply andb_false_iff; left; apply N.leb_gt; lia).
  replace (Unicode.is_low_surrogate c) with false
    by (symmetry; apply andb_false_iff; left; apply N.leb_gt; lia).
  now rewrite IH.
Qed.

(** The UTF-8 bytes of an ASCII string are its code units. *)
Lemma TextEncoder_encode_ascii s :
  Forall (fun c => c < 128)%N s -> TextEncoder_encode s = s.
Proof.
  intros H. unfold TextEncoder_encode. rewrite code_points_ascii by assumption.
  induction H as [|c s Hc _ IH]; [reflexivity|].
  cbn [map flat_map]. rewrite IH. unfold Unicode.utf8.
  apply N.ltb_lt in Hc. now rewrite Hc.
Qed.

Lemma uuid_ascii n : Forall (fun c => c < 128)%N (uuid n).
Proof.
  unfold uuid. constructor; [lia|].
  induction n; cbn; constructor; [lia|assumption].
Qed.

Lemma uuid_length n : List.length (uuid n) = S n.
Proof. unfold uuid. cbn. now rewrite repeat_length. Qed.

Lemma demo_slug_binding : slug_binding platform.
Proof.
  intros p i j now p'. cbn [SignJWT jwtVerify randomUUID platform].
  rewrite !TextEncoder_encode_ascii by apply uuid_ascii.
  unfold sign, verify. cbn [app].
  rewrite split_at_separator by apply letters_no_dot.
  destruct (snd (split 46 _)) as [|c [|d r]]; try discriminate.
  destruct (jseqb (letters (uuid i)) (letters (uuid j))) eqn:E;
    [|discriminate].
  intros _. apply jseqb_length in E.
  rewrite !letters_length, !uuid_length in E. lia.
Qed.

Lemma demo_derives_32_bytes : derives_32_bytes platform.
Proof.
  intros key salt iterations. cbn [deriveBits platform]. unfold checksum.
  split.
  - now rewrite length_map, length_seq.
  - apply Forall_forall. intros x Hx. apply in_map_iff in Hx.
    destruct Hx as (i & <- & _). apply N.mod_lt. discriminate.
Qed.

Lemma demo_world_initial : initial world.
Proof.
  split.
  - cbn. repeat constructor; cbn; intuition discriminate.
  - repeat constructor.
Qed.

End DemoFacts.

Lemma verifyPassword_accepts_hashPassword_witness :
  exists storedHash,
    hashPassword Demo.platform (js "correct-password") Demo.salt
    = Ok storedHash /\
    verifyPassword Demo.platform (js "correct-password") storedHash = Ok true.
Proof.
  apply (verifyPassword_accepts_hashPassword Demo.platform
           (js "correct-password") Demo.salt demo_derives_32_bytes).
  - reflexivity.
  - unfold Demo.salt. repeat constructor.
Defined.

Lemma login_success_response_witness :
  exists accessToken refreshToken,
    fst (login Demo.platform Demo.env Demo.login_request 1000 Demo.world)
    = Ok {| status := 200;
            headers :=
              [("Set-Cookie"%string,
                js "refresh-tok=" ++ refreshToken ++
                js "; Path=/api/tokens/refresh; Max-Age=25200; HttpOnly; Secure; SameSite=Strict")];
            body := JsonString accessToken |}.
Proof.
  do 2 eexists.
  eapply (login_success_response Demo.platform Demo.env Demo.login_request
            1000 Demo.world _ (js "alice") (js "correct-password")
            Demo.alice demo_compact_tokens).
  - vm_compute. reflexivity.
  - reflexivity.
  - reflexivity.
  - reflexivity.
  - reflexivity.
  - vm_compute. reflexivity.
  - vm_compute. reflexivity.
Defined.

Lemma rotation_invalidates_previous_refresh_token_witness :
  exists m,
    fst (refresh Demo.platform Demo.env Demo.refresh1 3000 Demo.world2)
    = Ok (c_json (JsonError m) 401 []).
Proof.
  refine (proj2 (proj2 (rotation_invalidates_previous_refresh_token
                          Demo.platform Demo.env demo_slug_binding Demo.world
                          (reachable_initial _ _ _ demo_world_initial))
                   Demo.login_request 1000%Z Demo.response1 Demo.world1 []
                   Demo.login_request 2000%Z Demo.response2 Demo.world2 []
                   (js "alice")
                   (set_tokens (Demo.uuid 0) (Demo.uuid 1) Demo.alice)
                   (Demo.uuid 0) (Demo.uuid 1) Demo.refresh1 3000%Z
                   _ _ _ _ _ _ _ _ _ _) _);
    try (vm_compute; reflexivity).
Defined.

(* ================================================================= *)
(** * Further properties of the password check *)

Lemma lor_zero a b : N.lor a b = 0%N -> a = 0%N /\ b = 0%N.
Proof. intros H. now apply N.lor_eq_0_iff. Qed.

Lemma xor_fold_from acc l l' :
  List.length l = List.length l' ->
  fold_left (fun result ab => N.lor result (N.lxor (fst ab) (snd ab)))
            (combine l l') acc = 0%N <->
  acc = 0%N /\ l = l'.
Proof.
  revert l' acc. induction l as [|a l IH]; intros [|b l'] acc Hlen;
    try discriminate.
  - cbn. intuition.
  - cbn [combine fold_left fst snd]. injection Hlen as Hlen.
    rewrite (IH l' _ Hlen). split.
    + intros [H ->]. apply lor_zero in H. destruct H as [-> H].
      apply N.lxor_eq in H. now subst.
    + intros [-> E]. injection E as -> ->.
      now rewrite N.lxor_nilpotent.
Qed.

(** The comparison loop finds no difference exactly when the arrays are
    equal. *)
Lemma xor_fold_zero_iff l l' :
  List.length l = List.length l' -> xor_fold l l' = 0%N <-> l = l'.
Proof.
  intros H. unfold xor_fold. rewrite (xor_fold_from 0 l l' H). intuition.
Qed.

(** What [verifyPassword] computes on a stored hash of two base64
    fields. *)
Lemma verifyPassword_encoded (P : Platform) (password : jsstring)
    (salt digest : list N) :
  salt <> [] -> digest <> [] ->
  Forall (fun b => b < 256)%N salt -> Forall (fun b => b < 256)%N digest ->
  verifyPassword P password
    (Base64.encode salt ++ js ":" ++ Base64.encode digest)
  = let hashArray :=
      deriveBits P (TextEncoder_encode password) salt 100000 256 in
    if negb (List.length hashArray =? List.length digest)%nat
    then Ok false
    else Ok (xor_fold hashArray digest =? 0)%N.
Proof.
  intros Hs Hd Hsb Hdb.
  unfold verifyPassword. change (js ":") with [58%N]. cbn [app].
  destruct salt as [|a salt']; [congruence|].
  destruct digest as [|d digest']; [congruence|].
  destruct (encode_head a salt') as (v & s & Es).
  destruct (encode_head d digest') as (v' & s' & Ed').
  assert (Hst : startsWith (Base64.encode (a :: salt') ++
                            58%N :: Base64.encode (d :: digest'))
                           (js "$2") = false).
  { rewrite Es. cbn. destruct (char_of_plain v) as [H36 _].
    apply N.eqb_neq in H36. now rewrite H36. }
  rewrite Hst.
  rewrite split_at_separator by apply encode_no_colon.
  rewrite split_without_separator by apply encode_no_colon.
  cbn [fst snd hd_error].
  rewrite Es at 1. rewrite Ed' at 1. cbn [truthy negb orb].
  rewrite !atob_encode by assumption. cbn [rbind].
  rewrite !Uint8Array_from_bytes by assumption. reflexivity.
Qed.

(** X1. Against a stored hash [btoa(salt):btoa(digest)], [verifyPassword]
    never throws and returns true exactly when the digest derived from the
    password and that salt is the stored digest, byte for byte. *)
Theorem verifyPassword_decides_digest (P : Platform) (password : jsstring)
    (salt digest : list N) :
  salt <> [] -> digest <> [] ->
  Forall (fun b => b < 256)%N salt -> Forall (fun b => b < 256)%N digest ->
  let storedHash := Base64.encode salt ++ js ":" ++ Base64.encode digest in
  (exists b, verifyPassword P password storedHash = Ok b) /\
  (verifyPassword P password storedHash = Ok true <->
   deriveBits P (TextEncoder_encode password) salt 100000 256 = digest).
Proof.
  intros Hs Hd Hsb Hdb storedHash. unfold storedHash.
  rewrite verifyPassword_encoded by assumption. cbv zeta.
  destruct (Nat.eqb_spec
              (List.length (deriveBits P (TextEncoder_encode password) salt
                              100000 256)) (List.length digest)) as [Hl|Hl];
    cbn [negb].
  - split; [eexists; reflexivity|].
    rewrite <- (xor_fold_zero_iff _ _ Hl). split.
    + intros H. injection H as H. now apply N.eqb_eq.
    + intros H. apply N.eqb_eq in H. now rewrite H.
  - split; [eexists; reflexivity|]. split; [discriminate|].
    intros H. rewrite H in Hl. congruence.
Qed.

Lemma verifyPassword_decides_digest_witness :
  verifyPassword Demo.platform (js "wrong-password")
    (Base64.encode Demo.salt ++ js ":" ++ Base64.encode [7; 7; 7]%N) = Ok true
  <-> deriveBits Demo.platform (TextEncoder_encode (js "wrong-password"))
        Demo.salt 100000 256 = [7; 7; 7]%N.
Proof.
  refine (proj2 (verifyPassword_decides_digest Demo.platform
                   (js "wrong-password") Demo.salt [7; 7; 7]%N _ _ _ _)).
  - discriminate.
  - discriminate.
  - unfold Demo.salt. repeat constructor.
  - repeat constructor.
Defined.

(** X2. [verifyPassword] answers false, without throwing and whatever the
    password, for a stored hash that begins with [$2] (bcrypt), that has no
    colon, that begins with a colon, or whose second field is empty. *)
Theorem verifyPassword_fails_closed (P : Platform) (password storedHash : jsstring) :
  startsWith storedHash (js "$2") = true \/
  Forall (fun c => c <> 58%N) storedHash \/
  (exists rest, storedHash = 58%N :: rest) \/
  (exists salt rest, Forall (fun c => c <> 58%N) salt /\
                     (storedHash = salt ++ [58%N] \/
                      storedHash = salt ++ 58%N :: 58%N :: rest)) ->
  verifyPassword P password storedHash = Ok false.
Proof.
  unfold verifyPassword.
  destruct (startsWith storedHash (js "$2")); [reflexivity|].
  intros [H|[H|[[rest ->]|(salt & rest & Hs & [->| ->])]]].
  - discriminate.
  - now rewrite split_without_separator.
  - cbn [split]. destruct (split 58 rest) as [f fs]. cbn.
    reflexivity.
  - rewrite split_at_separator by assumption. cbn.
    now rewrite orb_true_r.
  - rewrite split_at_separator by assumption. cbn [split].
    destruct (split 58 rest) as [f fs]. cbn. now rewrite orb_true_r.
Qed.

Lemma verifyPassword_fails_closed_witness :
  verifyPassword Demo.platform (js "correct-password") (js "$2b$10$abcdefgh")
  = Ok false.
Proof.
  apply (verifyPassword_fails_closed Demo.platform).
  left. reflexivity.
Defined.

(* ================================================================= *)
(** * Further properties of login and logout *)

(** X3. A login answered 400 or 401 leaves the world as it was: no row is
    written and no identifier is drawn, so a wrong password does not end
    the session of the user. Its response has no header, and the 401 is
    the same [{ error: 'Unauthorized' }] for an unknown username and for a
    wrong password. *)
Theorem login_rejection_changes_nothing (P : Platform) (env : Env)
    (req : Request) (now : Z) (w w' : World) (resp : Response) :
  login P env req now w = (Ok resp, w') ->
  status resp = 400%Z \/ status resp = 401%Z ->
  w' = w /\ headers resp = [] /\
  (status resp = 401%Z -> resp = c_json (JsonError "Unauthorized") 401 []).
Proof.
  rewrite login_spec. intros H Hs.
  repeat match type of H with
         | context [match ?x with _ => _ end] => destruct x eqn:?
         end;
    try (inversion H; subst; cbn in *; repeat split; auto;
         intros; try reflexivity; destruct Hs; discriminate).
  rewrite login_issue_spec in H.
  repeat match type of H with
         | context [match ?x with _ => _ end] => destruct x eqn:?
         end;
    inversion H; subst; cbn in Hs; destruct Hs; discriminate.
Qed.

Lemma login_rejection_changes_nothing_witness :
  snd (login Demo.platform Demo.env
         {| cookie_header := None; body_text := js "{alice,wrong}" |}
         5 Demo.world1) = Demo.world1.
Proof.
  pose (r := login Demo.platform Demo.env
               {| cookie_header := None; body_text := js "{alice,wrong}" |}
               5 Demo.world1).
  refine (proj1 (login_rejection_changes_nothing Demo.platform Demo.env
                   {| cookie_header := None; body_text := js "{alice,wrong}" |}
                   5 Demo.world1 (snd r)
                   (c_json (JsonError "Unauthorized") 401 []) _ _)).
  - vm_compute. reflexivity.
  - right. reflexivity.
Defined.

Lemma rotated_fixed_columns P uid w :
  map fixed_columns (users (rotated P uid w)) = map fixed_columns (users w).
Proof.
  unfold rotated. cbn [users]. rewrite map_map. apply map_ext.
  intros u. now destruct (id u =? uid)%Z.
Qed.

(** X4. No sequence of login, logout and refresh requests changes the
    number or the order of the rows, nor the id, the username, the password
    hash, the storage directory or the creation date of a row: the routes
    write the two token columns only. *)
Theorem routes_write_token_columns_only (P : Platform) (env : Env)
    (evs : list event) (w : World) :
  map fixed_columns (users (run P env evs w)) = map fixed_columns (users w).
Proof.
  apply (run_invariant P env
           (fun w' => map fixed_columns (users w') = map fixed_columns (users w))).
  - intros uid w0 H. now rewrite rotated_fixed_columns.
  - reflexivity.
Qed.

(** X5. Logout answers 200 [Logged out] with a cookie that empties
    [refresh-tok] and expires it ([Max-Age=-1]), whatever the state, and
    changes nothing; a refresh request that carries the emptied cookie is
    answered 401 [No refresh token]. *)
Theorem logout_expires_the_cookie (P : Platform) (env : Env) (w : World)
    (now : Z) :
  logout w
  = (Ok {| status := 200;
           headers :=
             [("Set-Cookie"%string,
               js "refresh-tok=; Path=/api/tokens/refresh; Max-Age=-1; HttpOnly; Secure; SameSite=Strict")];
           body := Text "Logged out" |}, w) /\
  fst (refresh P env {| cookie_header := Some (js "refresh-tok=");
                        body_text := [] |} now w)
  = Ok (c_json (JsonError "No refresh token") 401 []).
Proof. split; reflexivity. Qed.

(** X6. A stored hash written by the script [create-user-hash.mjs] is the
    text the Worker's own [hashPassword] gives for the same password and
    salt, and [verifyPassword] accepts the password against it. *)
Theorem script_hash_verifies (P : Platform) (password : jsstring) (salt : list N) :
  derives_32_bytes P ->
  List.length salt = 16%nat ->
  Forall (fun b => b < 256)%N salt ->
  hashPassword P password salt
  = Ok (CreateUserHash.hashPassword P password salt) /\
  verifyPassword P password (CreateUserHash.hashPassword P password salt)
  = Ok true.
Proof.
  intros HP Hlen Hsalt.
  destruct (HP (TextEncoder_encode password) salt 100000%N) as [Hdl Hdb].
  unfold CreateUserHash.hashPassword, CreateUserHash.Buffer_toString_base64.
  cbv zeta. split.
  - unfold hashPassword, String_fromCharCode.
    now rewrite !btoa_bytes by assumption.
  - rewrite verifyPassword_encoded; try assumption.
    + cbv zeta. rewrite Nat.eqb_refl. cbn [negb].
      now rewrite xor_fold_same.
    + intros ->. discriminate.
    + intros E. rewrite E in Hdl. discriminate.
Qed.

Lemma script_hash_verifies_witness :
  verifyPassword Demo.platform (js "testpass123")
    (CreateUserHash.hashPassword Demo.platform (js "testpass123") Demo.salt)
  = Ok true.
Proof.
  refine (proj2 (script_hash_verifies Demo.platform (js "testpass123")
                   Demo.salt demo_derives_32_bytes _ _)).
  - reflexivity.
  - unfold Demo.salt. repeat constructor.
Defined.

(* ================================================================= *)
(** * The CORS policy and the bearer guard *)

(** X7. The CORS [origin] callback allows every origin: it returns the
    request's origin whatever it is, the tests for [localhost],
    [127.0.0.1], [pages.dev] and [workers.dev] changing nothing, and [*]
    when there is none. *)
Theorem cors_allows_every_origin (origin : jsstring) :
  cors_origin origin = match origin with [] => js "*" | _ :: _ => origin end.
Proof.
  unfold cors_origin. destruct origin as [|c o]; [reflexivity|].
  destruct (_ || _); [reflexivity|]. destruct (_ || _); reflexivity.
Qed.

Lemma startsWith_prefix s p :
  startsWith s p = true -> s = p ++ skipn (List.length p) s.
Proof.
  revert s. induction p as [|x p IH]; intros s H; [reflexivity|].
  destruct s as [|c s]; [discriminate|]. cbn in H.
  apply andb_true_iff in H. destruct H as [Hc H]. apply N.eqb_eq in Hc.
  subst c. cbn. f_equal. now apply IH.
Qed.

Lemma startsWith_app p s : startsWith (p ++ s) p = true.
Proof.
  induction p as [|x p IH]; [now destruct s|]. cbn.
  now rewrite N.eqb_refl, IH.
Qed.

Lemma skipn_prefix {A} (p s : list A) : skipn (List.length p) (p ++ s) = s.
Proof. induction p; auto. Qed.

Lemma utf8_nonempty cp : Unicode.utf8 cp <> [].
Proof.
  unfold Unicode.utf8.
  repeat match goal with
         | |- context [if ?b then _ else _] => destruct b
         end; discriminate.
Qed.

Lemma TextEncoder_encode_nonempty s : s <> [] -> TextEncoder_encode s <> [].
Proof.
  destruct s as [|c rest]; [congruence|]. intros _.
  unfold TextEncoder_encode.
  assert (H : exists x l, Unicode.code_points (c :: rest) = x :: l).
  { cbn [Unicode.code_points].
    repeat match goal with
           | |- context [if ?b then _ else _] => destruct b
           | |- context [match ?l with [] => _ | _ :: _ => _ end] => destruct l
           end; eauto. }
  destruct H as (x & l & ->). cbn [flat_map].
  destruct (Unicode.utf8 _) eqn:E; [|discriminate].
  now apply utf8_nonempty in E.
Qed.

Lemma getJwtSecret_nonempty env : getJwtSecret env <> [].
Proof.
  unfold getJwtSecret. destruct (JWT_SECRET env) as [[|c s]|].
  - vm_compute. discriminate.
  - apply TextEncoder_encode_nonempty. discriminate.
  - vm_compute. discriminate.
Qed.

Lemma guard_accepts_fresh_token P env storageDir now now' :
  verifies_own_tokens P -> (now' < now + 300)%Z ->
  bearer_guard P env
    (Some (js "Bearer " ++ createAccessToken P storageDir (getJwtSecret env) now))
    now'
  = Proceeds storageDir.
Proof.
  intros HP Hn. unfold bearer_guard.
  set (t := createAccessToken P storageDir (getJwtSecret env) now).
  assert (E : exists c h, js "Bearer " ++ t = c :: h) by (cbn; eauto).
  destruct E as (c & h & E). rewrite E. rewrite <- E.
  rewrite startsWith_app. cbn [negb]. rewrite skipn_prefix.
  unfold verifyAccessToken, t, createAccessToken.
  rewrite HP; [reflexivity|apply getJwtSecret_nonempty|cbn; lia].
Qed.

(** X8. An access token returned by a login passes the bearer guard for
    the 300 seconds after the login, and the guard sets [storePath] to the
    [storage_dir] of the user who logged in: the row that
    [fetchUserByUsername] returns for the [username] of the request's
    body. An access token returned by a refresh passes it for 300 seconds
    after the refresh, with the [store] claim that [verifyRefreshToken]
    returned for the cookie's token under the slug on file for the [sub]
    of its payload. *)
Theorem issued_access_token_passes_guard (P : Platform) (env : Env) :
  verifies_own_tokens P ->
  (forall req now w resp w' b name user,
      login P env req now w = (Ok resp, w') -> status resp = 200%Z ->
      Request_json P (body_text req) = Some (Some b) ->
      D1_bind (cred_username b) = Ok name ->
      fst (fetchUserByUsername name w) = Ok (Some user) ->
      exists token,
        body resp = JsonString token /\
        forall now', (now' < now + 300)%Z ->
          bearer_guard P env (Some (js "Bearer " ++ token)) now'
          = Proceeds (storage_dir user)) /\
  (forall req now w resp,
      fst (refresh P env req now w) = Ok resp -> status resp = 200%Z ->
      exists token t payload s slug claims,
        body resp = JsonString token /\
        getCookie req (js "refresh-tok") = Ok (Some t) /\
        decode_payload P (nth 1 (split_fields 46 t) []) = Some (Some payload) /\
        D1_bind (raw_sub payload) = Ok s /\
        fst (fetchTokenSlugByTokenId s w) = Ok (Some slug) /\
        verifyRefreshToken P t slug now = Some claims /\
        forall now', (now' < now + 300)%Z ->
          bearer_guard P env (Some (js "Bearer " ++ token)) now'
          = Proceeds (store claims)).
Proof.
  intros HP. split.
  - intros req now w resp w' b name user L Hs Hb Hn Hu.
    destruct (login_ok_inv _ _ _ _ _ _ _ L Hs)
      as (b' & name' & u & c & Hb' & _ & _ & Hn' & Hf & _ & _ & _ & Hr & _).
    rewrite Hb in Hb'. injection Hb' as <-.
    rewrite Hn in Hn'. injection Hn' as <-.
    cbn [fst fetchUserByUsername] in Hu. rewrite Hf in Hu. injection Hu as <-.
    exists (createAccessToken P (storage_dir u) (getJwtSecret env) now).
    subst resp. split; [reflexivity|].
    intros now' Hn'. now apply guard_accepts_fresh_token.
  - intros req now w resp H Hs.
    destruct (refresh_ok_inv _ _ _ _ _ _ H Hs)
      as (t & payload & s & slug & claims & Hc & _ & Hd & _ & Hb & Hf & Hv & Hr).
    exists (createAccessToken P (store claims) (getJwtSecret env) now),
      t, payload, s, slug, claims.
    subst resp. repeat split; try assumption.
    intros now' Hn. now apply guard_accepts_fresh_token.
Qed.

(** X9. The bearer guard lets a request through only when its
    [Authorization] header is [Bearer ] followed by a token that verifies
    under the global secret at that time, and [storePath] is then the
    [store] claim of that token; every other request is answered 401
    without a header. *)
Theorem guard_proceeds_only_on_verified_bearer (P : Platform) (env : Env)
    (authHeader : option jsstring) (now : Z) :
  (forall storePath,
      bearer_guard P env authHeader now = Proceeds storePath ->
      exists token claims,
        authHeader = Some (js "Bearer " ++ token) /\
        verifyAccessToken P token (getJwtSecret env) now = Some claims /\
        store claims = storePath) /\
  (forall resp,
      bearer_guard P env authHeader now = Rejected resp ->
      status resp = 401%Z /\ headers resp = []).
Proof.
  unfold bearer_guard. cbv zeta.
  destruct authHeader as [[|c h]|]; split; intros x H; try discriminate;
    try (injection H as <-; split; reflexivity).
  - destruct (startsWith (c :: h) (js "Bearer ")) eqn:Hp; [|discriminate].
    cbn [negb] in H.
    destruct (verifyAccessToken P _ _ now) as [claims|] eqn:Hv;
      [|discriminate].
    injection H as <-. apply startsWith_prefix in Hp.
    exists (skipn (List.length (js "Bearer ")) (c :: h)), claims.
    repeat split; [now rewrite <- Hp | assumption].
  - destruct (negb _); [injection H as <-; split; reflexivity|].
    destruct (verifyAccessToken P _ _ now);
      [discriminate|injection H as <-; split; reflexivity].
Qed.

(* ================================================================= *)
(** * Cookies: what [createCookie] writes, [getCookie] reads *)

Section UriRoundTrip.

Import URI Unicode.

Lemma hex_value_digit v : (v < 16)%N -> hex_value (hex_digit v) = Some v.
Proof.
  intros Hv. unfold hex_value, hex_digit.
  destruct (N.ltb_spec v 10).
  - replace ((48 <=? 48 + v) && (48 + v <=? 57))%N with true
      by (symmetry; apply andb_true_iff; split; apply N.leb_le; lia).
    f_equal. lia.
  - replace ((48 <=? 55 + v) && (55 + v <=? 57))%N with false
      by (symmetry; apply andb_false_iff; right; apply N.leb_gt; lia).
    replace ((65 <=? 55 + v) && (55 + v <=? 70))%N with true
      by (symmetry; apply andb_true_iff; split; apply N.leb_le; lia).
    f_equal. lia.
Qed.

Lemma take_escape_percent b s :
  (b < 256)%N -> take_escape (percent b ++ s) = Some (b, s).
Proof.
  intros Hb. unfold percent. cbn [app take_escape].
  rewrite !hex_value_digit by lia. do 2 f_equal. lia.
Qed.

Lemma take_escapes_percent bs s :
  Forall (fun b => b < 256)%N bs ->
  take_escapes (List.length bs) (flat_map percent bs ++ s) = Some (bs, s).
Proof.
  induction 1 as [|b bs Hb _ IH]; [reflexivity|].
  cbn [flat_map List.length take_escapes]. rewrite <- app_assoc.
  rewrite take_escape_percent by assumption. now rewrite IH.
Qed.

Lemma percent_head b s : exists t, percent b ++ s = 37%N :: t.
Proof. unfold percent. cbn. eauto. Qed.

Lemma unreserved_small c : unreserved c = true -> (c < 128 /\ c <> 37)%N.
Proof.
  unfold unreserved.
  rewrite !orb_true_iff, !andb_true_iff, !N.leb_le, !N.eqb_eq. lia.
Qed.

(** One turn of the decoding loop reads back one encoded code point. *)
Lemma decode_chunk cp fuel s :
  scalar cp ->
  decode_loop (S fuel) (chunk cp ++ s)
  = rbind (decode_loop fuel s) (fun r => Ok (utf16 cp ++ r)).
Proof.
  intros [Hmax Hsur]. unfold chunk.
  destruct (unreserved cp) eqn:Hu.
  - apply unreserved_small in Hu. destruct Hu as [H128 H37].
    cbn [app decode_loop]. apply N.eqb_neq in H37. rewrite H37.
    unfold utf16. replace (cp <? 65536)%N with true
      by (symmetry; apply N.ltb_lt; lia). reflexivity.
  - unfold utf8.
    destruct (N.ltb_spec cp 128) as [H1|H1].
    { cbn [flat_map]. rewrite app_nil_r.
      destruct (percent_head cp s) as (t & Et).
      cbn [decode_loop]. rewrite Et. rewrite N.eqb_refl. rewrite <- Et.
      rewrite take_escape_percent by lia.
      replace (cp <? 128)%N with true by (symmetry; apply N.ltb_lt; lia).
      unfold utf16. replace (cp <? 65536)%N with true
        by (symmetry; apply N.ltb_lt; lia). reflexivity. }
    destruct (N.ltb_spec cp 2048) as [H2|H2].
    { cbn [flat_map]. rewrite app_nil_r, <- app_assoc.
      destruct (percent_head (192 + cp / 64)
                  (percent (128 + cp mod 64) ++ s)) as (t & Et).
      cbn [decode_loop]. rewrite Et. rewrite N.eqb_refl. rewrite <- Et.
      rewrite take_escape_percent by lia.
      replace (192 + cp / 64 <? 128)%N with false
        by (symmetry; apply N.ltb_ge; lia).
      unfold continuation_count.
      replace ((192 <=? 192 + cp / 64) && (192 + cp / 64 <? 224))%N with true
        by (symmetry; apply andb_true_iff; split;
            [apply N.leb_le|apply N.ltb_lt]; lia).
      change 1%nat with (List.length [(128 + cp mod 64)%N]).
      replace (percent (128 + cp mod 64) ++ s)
        with (flat_map percent [(128 + cp mod 64)%N] ++ s)
        by (cbn [flat_map]; now rewrite app_nil_r).
      rewrite take_escapes_percent by (repeat constructor; lia).
      unfold utf8_code_point. cbn [forallb].
      replace ((128 <=? 128 + cp mod 64) && (128 + cp mod 64 <=? 191))%N
        with true
        by (symmetry; apply andb_true_iff; split; apply N.leb_le; lia).
      cbn [andb negb].
      replace ((192 + cp / 64 - 192) * 64 + (128 + cp mod 64 - 128))%N
        with cp by lia.
      replace (128 <=? cp)%N with true by (symmetry; apply N.leb_le; lia).
      unfold utf16. replace (cp <? 65536)%N with true
        by (symmetry; apply N.ltb_lt; lia). reflexivity. }
    destruct (N.ltb_spec cp 65536) as [H3|H3].
    { cbn [flat_map]. rewrite app_nil_r, <- !app_assoc.
      set (b0 := (224 + cp / 4096)%N).
      set (b1 := (128 + (cp / 64) mod 64)%N).
      set (b2 := (128 + cp mod 64)%N).
      destruct (percent_head b0 (percent b1 ++ percent b2 ++ s)) as (t & Et).
      cbn [decode_loop]. rewrite Et. rewrite N.eqb_refl. rewrite <- Et.
      rewrite take_escape_percent by (unfold b0; lia).
      replace (b0 <? 128)%N with false
        by (symmetry; apply N.ltb_ge; unfold b0; lia).
      unfold continuation_count.
      replace ((192 <=? b0) && (b0 <? 224))%N with false
        by (symmetry; apply andb_false_iff; right; apply N.ltb_ge;
            unfold b0; lia).
      replace ((224 <=? b0) && (b0 <? 240))%N with true
        by (symmetry; apply andb_true_iff; split;
            [apply N.leb_le|apply N.ltb_lt]; unfold b0; lia).
      change 2%nat with (List.length [b1; b2]).
      replace (percent b1 ++ percent b2 ++ s)
        with (flat_map percent [b1; b2] ++ s)
        by (cbn [flat_map]; now rewrite app_nil_r, <- app_assoc).
      rewrite take_escapes_percent by (repeat constructor; unfold b1, b2; lia).
      unfold utf8_code_point. cbn [forallb].
      replace ((128 <=? b1) && (b1 <=? 191))%N with true
        by (symmetry; apply andb_true_iff; split; apply N.leb_le;
            unfold b1; lia).
      replace ((128 <=? b2) && (b2 <=? 191))%N with true
        by (symmetry; apply andb_true_iff; split; apply N.leb_le;
            unfold b2; lia).
      cbn [andb negb].
      replace ((b0 - 224) * 4096 + (b1 - 128) * 64 + (b2 - 128))%N
        with cp by (unfold b0, b1, b2; lia).
      replace (2048 <=? cp)%N with true by (symmetry; apply N.leb_le; lia).
      replace ((55296 <=? cp) && (cp <=? 57343))%N with false
        by (symmetry; apply andb_false_iff;
            destruct (N.le_gt_cases 55296 cp);
            [right; apply N.leb_gt; lia|left; apply N.leb_gt; lia]).
      cbn [andb negb].
      unfold utf16. replace (cp <? 65536)%N with true
        by (symmetry; apply N.ltb_lt; lia). reflexivity. }
    { cbn [flat_map]. rewrite app_nil_r, <- !app_assoc.
      set (b0 := (240 + cp / 262144)%N).
      set (b1 := (128 + (cp / 4096) mod 64)%N).
      set (b2 := (128 + (cp / 64) mod 64)%N).
      set (b3 := (128 + cp mod 64)%N).
      destruct (percent_head b0 (percent b1 ++ percent b2 ++ percent b3 ++ s))
        as (t & Et).
      cbn [decode_loop]. rewrite Et. rewrite N.eqb_refl. rewrite <- Et.
      rewrite take_escape_percent by (unfold b0; lia).
      replace (b0 <? 128)%N with false
        by (symmetry; apply N.ltb_ge; unfold b0; lia).
      unfold continuation_count.
      replace ((192 <=? b0) && (b0 <? 224))%N with false
        by (symmetry; apply andb_false_iff; right; apply N.ltb_ge;
            unfold b0; lia).
      replace ((224 <=? b0) && (b0 <? 240))%N with false
        by (symmetry; apply andb_false_iff; right; apply N.ltb_ge;
            unfold b0; lia).
      replace ((240 <=? b0) && (b0 <? 248))%N with true
        by (symmetry; apply andb_true_iff; split;
            [apply N.leb_le|apply N.ltb_lt]; unfold b0; lia).
      change 3%nat with (List.length [b1; b2; b3]).
      replace (percent b1 ++ percent b2 ++ percent b3 ++ s)
        with (flat_map percent [b1; b2; b3] ++ s)
        by (cbn [flat_map]; now rewrite app_nil_r, <- !app_assoc).
      rewrite take_escapes_percent
        by (repeat constructor; unfold b1, b2, b3; lia).
      unfold utf8_code_point. cbn [forallb].
      replace ((128 <=? b1) && (b1 <=? 191))%N with true
        by (symmetry; apply andb_true_iff; split; apply N.leb_le;
            unfold b1; lia).
      replace ((128 <=? b2) && (b2 <=? 191))%N with true
        by (symmetry; apply andb_true_iff; split; apply N.leb_le;
            unfold b2; lia).
      replace ((128 <=? b3) && (b3 <=? 191))%N with true
        by (symmetry; apply andb_true_iff; split; apply N.leb_le;
            unfold b3; lia).
      cbn [andb negb].
      replace ((b0 - 240) * 262144 + (b1 - 128) * 4096 + (b2 - 128) * 64
               + (b3 - 128))%N
        with cp by (unfold b0, b1, b2, b3; lia).
      replace ((65536 <=? cp) && (cp <=? 1114111))%N with true
        by (symmetry; apply andb_true_iff; split; apply N.leb_le; lia).
      reflexivity. }
Qed.

Lemma chunk_nonempty cp : exists c t, chunk cp = c :: t.
Proof.
  unfold chunk. destruct (unreserved cp); [eauto|].
  destruct (utf8 cp) as [|b bs] eqn:E; [now apply utf8_nonempty in E|].
  cbn [flat_map]. unfold percent. cbn. eauto.
Qed.

Lemma encode_points_some cp cps r :
  encode_points (Some cp :: cps) = Ok r ->
  exists r', encode_points cps = Ok r' /\ r = chunk cp ++ r'.
Proof.
  cbn [encode_points]. destruct (encode_points cps) as [r'|]; [|discriminate].
  cbn [rbind]. intros H. injection H as <-. eauto.
Qed.

Lemma decode_loop_nil fuel : decode_loop fuel [] = Ok [].
Proof. now destruct fuel. Qed.

Lemma decode_encode_points n :
  forall s, (List.length s <= n)%nat ->
  Forall (fun c => c < 65536)%N s ->
  forall r, encode_points (code_points s) = Ok r ->
  forall fuel, (List.length r <= fuel)%nat ->
  decode_loop fuel r = Ok s.
Proof.
  induction n as [|n IH]; intros s Hn Hs r He fuel Hf.
  - destruct s; [|cbn in Hn; lia]. cbn in He. injection He as <-.
    apply decode_loop_nil.
  - destruct s as [|c rest].
    { cbn in He. injection He as <-. apply decode_loop_nil. }
    inversion Hs as [|? ? Hc Hrest]; subst.
    cbn [code_points] in He.
    destruct (is_high_surrogate c) eqn:Hh.
    + destruct rest as [|d rest']; [discriminate|].
      destruct (is_low_surrogate d) eqn:Hl; [|discriminate].
      apply encode_points_some in He. destruct He as (r' & He & ->).
      unfold is_high_surrogate in Hh. unfold is_low_surrogate in Hl.
      rewrite andb_true_iff, !N.leb_le in Hh, Hl.
      set (cp := (65536 + (c - 55296) * 1024 + (d - 56320))%N) in *.
      destruct (chunk_nonempty cp) as (x & t & Ex).
      destruct fuel as [|fuel]; [rewrite Ex in Hf; cbn in Hf; lia|].
      rewrite decode_chunk by (unfold scalar, cp; lia).
      inversion Hrest; subst.
      rewrite (IH rest') with (r := r'); try assumption.
      * cbn [rbind]. unfold utf16.
        replace (cp <? 65536)%N with false
          by (symmetry; apply N.ltb_ge; unfold cp; lia).
        replace (55296 + (cp - 65536) / 1024)%N with c by (unfold cp; lia).
        replace (56320 + (cp - 65536) mod 1024)%N with d
          by (unfold cp; lia).
        reflexivity.
      * cbn in Hn. lia.
      * rewrite Ex in Hf. rewrite length_app in *. cbn in Hf. lia.
    + destruct (is_low_surrogate c) eqn:Hl; [discriminate|].
      apply encode_points_some in He. destruct He as (r' & He & ->).
      unfold is_high_surrogate in Hh. unfold is_low_surrogate in Hl.
      rewrite andb_false_iff, !N.leb_gt in Hh, Hl.
      destruct (chunk_nonempty c) as (x & t & Ex).
      destruct fuel as [|fuel]; [rewrite Ex in Hf; cbn in Hf; lia|].
      rewrite decode_chunk by (unfold scalar; lia).
      rewrite (IH rest) with (r := r'); try assumption.
      * cbn [rbind]. unfold utf16.
        replace (c <? 65536)%N with true by (symmetry; apply N.ltb_lt; lia).
        reflexivity.
      * cbn in Hn. lia.
      * rewrite Ex in Hf. rewrite length_app in *. cbn in Hf. lia.
Qed.

(** Decoding what [encodeURIComponent] wrote gives the string back. *)
Lemma decodeURIComponent_encodeURIComponent s r :
  Forall (fun c => c < 65536)%N s ->
  encodeURIComponent s = Ok r -> decodeURIComponent r = Ok s.
Proof.
  intros Hs He. unfold decodeURIComponent.
  now apply (decode_encode_points (List.length s) s (le_n _) Hs r He).
Qed.

Lemma not_whitespace_below_160 c :
  (c < 160 -> c <> 32 -> ~ (9 <= c <= 13) -> is_js_whitespace c = false)%N.
Proof.
  intros H1 H2 H3. apply not_true_is_false. unfold is_js_whitespace.
  rewrite !orb_true_iff, !andb_true_iff, !N.leb_le, !N.eqb_eq. lia.
Qed.

Lemma unreserved_cookie_safe c : unreserved c = true -> cookie_safe c.
Proof.
  intros H. unfold unreserved in H.
  rewrite !orb_true_iff, !andb_true_iff, !N.leb_le, !N.eqb_eq in H.
  repeat split; try lia. apply not_whitespace_below_160; lia.
Qed.

Lemma hex_digit_cookie_safe v : (v < 16)%N -> cookie_safe (hex_digit v).
Proof.
  intros Hv. unfold hex_digit.
  destruct (N.ltb_spec v 10); repeat split; try lia;
    apply not_whitespace_below_160; lia.
Qed.

Lemma percent_cookie_safe b : (b < 256)%N -> Forall cookie_safe (percent b).
Proof.
  intros Hb. unfold percent. repeat constructor; try discriminate;
    try (apply hex_digit_cookie_safe; lia).
Qed.

Lemma utf8_bytes cp : scalar cp -> Forall (fun b => b < 256)%N (utf8 cp).
Proof.
  intros [Hmax _]. unfold utf8.
  repeat match goal with
         | |- context [(?a <? ?b)%N] => destruct (N.ltb_spec a b)
         end; repeat constructor; lia.
Qed.

Lemma chunk_cookie_safe cp : scalar cp -> Forall cookie_safe (chunk cp).
Proof.
  intros Hcp. unfold chunk. destruct (unreserved cp) eqn:Hu.
  - repeat constructor; now apply unreserved_cookie_safe.
  - pose proof (utf8_bytes cp Hcp) as Hb.
    induction Hb as [|b bs Hb _ IH]; cbn [flat_map]; [constructor|].
    apply Forall_app. split; [now apply percent_cookie_safe|exact IH].
Qed.

Lemma encoded_cookie_safe n :
  forall s, (List.length s <= n)%nat ->
  Forall (fun c => c < 65536)%N s ->
  forall r, encode_points (code_points s) = Ok r -> Forall cookie_safe r.
Proof.
  induction n as [|n IH]; intros s Hn Hs r He.
  - destruct s; [|cbn in Hn; lia]. cbn in He. injection He as <-. constructor.
  - destruct s as [|c rest].
    { cbn in He. injection He as <-. constructor. }
    inversion Hs as [|? ? Hc Hrest]; subst.
    cbn [code_points] in He.
    destruct (is_high_surrogate c) eqn:Hh.
    + destruct rest as [|d rest']; [discriminate|].
      destruct (is_low_surrogate d) eqn:Hl; [|discriminate].
      apply encode_points_some in He. destruct He as (r' & He & ->).
      unfold is_high_surrogate in Hh. unfold is_low_surrogate in Hl.
      rewrite andb_true_iff, !N.leb_le in Hh, Hl.
      inversion Hrest; subst.
      apply Forall_app. split.
      * apply chunk_cookie_safe. unfold scalar. lia.
      * apply (IH rest'); try assumption. cbn in Hn. lia.
    + destruct (is_low_surrogate c) eqn:Hl; [discriminate|].
      apply encode_points_some in He. destruct He as (r' & He & ->).
      unfold is_high_surrogate in Hh. unfold is_low_surrogate in Hl.
      rewrite andb_false_iff, !N.leb_gt in Hh, Hl.
      apply Forall_app. split.
      * apply chunk_cookie_safe. unfold scalar. lia.
      * apply (IH rest); try assumption. cbn in Hn. lia.
Qed.

End UriRoundTrip.

Lemma jseqb_refl a : jseqb a a = true.
Proof. induction a as [|x a IH]; cbn; [reflexivity|]. now rewrite N.eqb_refl. Qed.

Lemma jseqb_eq a b : jseqb a b = true -> a = b.
Proof.
  revert b. induction a as [|x a IH]; intros [|y b]; cbn; try discriminate;
    [reflexivity|].
  intros H. apply andb_true_iff in H. destruct H as [Hx H].
  apply N.eqb_eq in Hx. subst. f_equal. now apply IH.
Qed.

Lemma trimStart_kept s :
  Forall (fun c => is_js_whitespace c = false) s -> trimStart s = s.
Proof. destruct 1 as [|c s Hc _]; cbn; [reflexivity|]. now rewrite Hc. Qed.

Lemma trim_kept s :
  Forall (fun c => is_js_whitespace c = false) s -> trim s = s.
Proof.
  intros H. unfold trim. rewrite (trimStart_kept s H).
  rewrite trimStart_kept by now apply Forall_rev.
  apply rev_involutive.
Qed.

Lemma join_cons sep x l :
  join sep (x :: l)
  = x ++ match l with [] => [] | _ :: _ => sep ++ join sep l end.
Proof. destruct l; cbn [join]; [now rewrite app_nil_r|reflexivity]. Qed.

(** The first part of a cookie is [name=encoded value]; what follows, if
    anything, begins with a semicolon. *)
Lemma createCookie_shape name value options setCookie :
  createCookie name value options = Ok setCookie ->
  exists r tail,
    URI.encodeURIComponent value = Ok r /\
    setCookie = (name ++ 61%N :: r) ++ tail /\
    (tail = [] \/ exists t, tail = 59%N :: t).
Proof.
  unfold createCookie.
  destruct (URI.encodeURIComponent value) as [r|]; [|discriminate].
  cbn [rbind]. intros H. injection H as <-.
  exists r. change (js "=") with [61%N]. cbn [app].
  set (first := name ++ 61%N :: r).
  change (js "; ") with [59%N; 32%N].
  destruct options as [[[|c p]|] [m|] [[|]|] [[|]|] [s|]];
    cbn [path maxAge httpOnly secure sameSite app];
    rewrite join_cons; eexists; (split; [reflexivity|]);
    (split; [reflexivity|]);
    first [left; reflexivity | right; cbn [app]; eexists; reflexivity].
Qed.

Lemma cookie_pair_of_shape first tail :
  Forall (fun c => c <> 59%N) first ->
  tail = [] \/ (exists t, tail = 59%N :: t) ->
  cookie_pair (first ++ tail) = first.
Proof.
  intros Hs Ht. unfold cookie_pair.
  destruct Ht as [->|[t ->]].
  - rewrite app_nil_r. now rewrite split_without_separator.
  - now rewrite split_at_separator.
Qed.

(** How [getCookie] reads a header that begins with the cookie it looks
    for. *)
Lemma getCookie_first_cookie req name r tail :
  Forall cookie_safe name -> Forall cookie_safe r ->
  tail = [] \/ (exists t, tail = 59%N :: t) ->
  cookie_header req = Some ((name ++ 61%N :: r) ++ tail) ->
  getCookie req name
  = rbind (URI.decodeURIComponent r) (fun v => Ok (Some v)).
Proof.
  intros Hn Hr Ht Hh. unfold getCookie. rewrite Hh.
  assert (Hfirst : Forall (fun c => c <> 59%N) (name ++ 61%N :: r)).
  { apply Forall_app. split; [|constructor; [discriminate|]];
      (eapply Forall_impl; [|eassumption]); now intros c [H _]. }
  assert (Hws : Forall (fun c => is_js_whitespace c = false)
                       (name ++ 61%N :: r)).
  { apply Forall_app. split; [|constructor; [reflexivity|]];
      (eapply Forall_impl; [|eassumption]); now intros c (_ & _ & H). }
  assert (Hkv : cookie_key_value (name ++ 61%N :: r) = (name, Some r)).
  { unfold cookie_key_value. rewrite split_at_separator.
    - rewrite split_without_separator; [reflexivity|].
      eapply Forall_impl; [|exact Hr]. now intros c (_ & H & _).
    - eapply Forall_impl; [|exact Hn]. now intros c (_ & H & _). }
  assert (Hne : exists c h, (name ++ 61%N :: r) ++ tail = c :: h)
    by (destruct name; cbn; eauto).
  destruct Hne as (c & h & E). rewrite E. rewrite <- E. clear E c h.
  unfold split_fields.
  destruct Ht as [->|[t ->]].
  - rewrite app_nil_r, split_without_separator by assumption.
    cbn [map getCookie_loop]. rewrite trim_kept by assumption.
    rewrite Hkv, jseqb_refl. reflexivity.
  - rewrite split_at_separator by assumption.
    cbn [map getCookie_loop]. rewrite trim_kept by assumption.
    rewrite Hkv, jseqb_refl. reflexivity.
Qed.

(** X10. A cookie written by [createCookie] is read back by [getCookie]:
    for a name of unreserved characters and any value of 16-bit code units
    that [createCookie] accepts, a request whose [Cookie] header is the
    [name=value] pair of the [Set-Cookie] text, alone or followed by other
    cookies, yields exactly the value, whatever the attributes. *)
Theorem getCookie_reads_createCookie (name value : jsstring)
    (options : CookieOptions) (setCookie others : jsstring) (req : Request) :
  Forall (fun c => URI.unreserved c = true) name ->
  Forall (fun c => c < 65536)%N value ->
  createCookie name value options = Ok setCookie ->
  cookie_header req = Some (cookie_pair setCookie) \/
  cookie_header req = Some (cookie_pair setCookie ++ js "; " ++ others) ->
  getCookie req name = Ok (Some value).
Proof.
  intros Hname Hvalue Hc Hreq.
  destruct (createCookie_shape _ _ _ _ Hc) as (r & tail & He & -> & Ht).
  assert (Hn : Forall cookie_safe name).
  { eapply Forall_impl; [|exact Hname]. apply unreserved_cookie_safe. }
  assert (Hr : Forall cookie_safe r).
  { eapply (encoded_cookie_safe (List.length value) value); eauto. }
  assert (Hfirst : Forall (fun c => c <> 59%N) (name ++ 61%N :: r)).
  { apply Forall_app. split; [|constructor; [discriminate|]];
      (eapply Forall_impl; [|eassumption]); now intros c [H _]. }
  rewrite cookie_pair_of_shape in Hreq by assumption.
  pose proof (decodeURIComponent_encodeURIComponent value r Hvalue He) as Hd.
  destruct Hreq as [Hreq|Hreq].
  - rewrite (getCookie_first_cookie req name r []); auto.
    + now rewrite Hd.
    + now rewrite app_nil_r.
  - rewrite (getCookie_first_cookie req name r (js "; " ++ others)); auto.
    + now rewrite Hd.
    + right. cbn. eauto.
Qed.

Lemma getCookie_reads_createCookie_witness :
  getCookie {| cookie_header :=
                 Some (js "lang=caf%C3%A9%20%F0%9F%98%80%3B; theme=dark");
               body_text := [] |} (js "lang")
  = Ok (Some [99; 97; 102; 233; 32; 55357; 56832; 59]%N).
Proof.
  refine (getCookie_reads_createCookie (js "lang")
            [99; 97; 102; 233; 32; 55357; 56832; 59]%N
            (refresh_cookie_options 60)
            (js "lang=caf%C3%A9%20%F0%9F%98%80%3B; Path=/api/tokens/refresh; Max-Age=60; HttpOnly; Secure; SameSite=Strict")
            (js "theme=dark") _ _ _ _ _).
  - repeat constructor.
  - repeat constructor.
  - vm_compute. reflexivity.
  - right. vm_compute. reflexivity.
Defined.

(* ================================================================= *)
(** * The platform with exact tokens meets the contracts *)

Section LosslessFacts.

Import Lossless.

Lemma read_bits p s : read (bits p ++ s) = Npos p :: read s.
Proof.
  induction p as [q IH|q IH|]; cbn [bits app read].
  - rewrite IH. reflexivity.
  - rewrite IH. reflexivity.
  - reflexivity.
Qed.

Lemma read_numbers l s : read (numbers l ++ s) = l ++ read s.
Proof.
  unfold numbers. induction l as [|n l IH]; [reflexivity|].
  cbn [flat_map]. rewrite <- app_assoc.
  destruct n as [|p]; cbn [number].
  - cbn [app read]. now rewrite IH.
  - now rewrite read_bits, IH.
Qed.

Lemma read_zeros k : read (repeat 122%N k) = repeat 0%N k.
Proof. induction k as [|k IH]; cbn; [reflexivity|]. now rewrite IH. Qed.

Lemma numbers_letters l : Forall letter (numbers l).
Proof.
  unfold numbers. induction l as [|n l IH]; [constructor|].
  cbn [flat_map]. apply Forall_app. split; [|exact IH].
  destruct n as [|p]; cbn [number].
  - constructor; [unfold letter; lia|constructor].
  - induction p; cbn [bits]; constructor; try assumption;
      try (unfold letter; lia). constructor.
Qed.

Lemma fill_letters s : Forall letter s -> Forall letter (fill s).
Proof.
  intros H. unfold fill. apply Forall_app. split; [assumption|].
  induction ((4 - List.length s mod 4) mod 4)%nat; cbn; constructor;
    [unfold letter; lia|assumption].
Qed.

Lemma letter_no_dot s : Forall letter s -> Forall (fun c => c <> 46%N) s.
Proof.
  apply Forall_impl. unfold letter. intros c H. lia.
Qed.

Lemma letter_unreserved s :
  Forall letter s -> Forall (fun c => URI.unreserved c = true) s.
Proof.
  apply Forall_impl. unfold letter.
  intros c [-> |[-> |[-> | ->]]]; reflexivity.
Qed.

Lemma take_text_numbers s rest :
  take_text (text_numbers s ++ rest) = Some (s, rest).
Proof.
  unfold take_text, text_numbers. cbn [app]. rewrite Nnat.Nat2N.id.
  replace (List.length (s ++ rest) <? List.length s)%nat with false
    by (symmetry; apply Nat.ltb_ge; rewrite length_app; lia).
  rewrite firstn_app, Nat.sub_diag, firstn_all, firstn_O, app_nil_r.
  rewrite skipn_app, Nat.sub_diag, skipn_all. reflexivity.
Qed.

Lemma claims_of_numbers p rest :
  claims_of (claims_numbers p ++ rest) = Some p.
Proof.
  destruct p as [s st e]. unfold claims_numbers. cbn [sub store exp].
  assert (He : (if ((if (e <? 0)%Z then 1 else 0) =? 0)%N
                then Z.of_N (Z.abs_N e) else - Z.of_N (Z.abs_N e))%Z = e).
  { rewrite N2Z.inj_abs_N. destruct (Z.ltb_spec e 0); cbn; lia. }
  destruct s as [s|].
  - cbn [app claims_of N.eqb]. rewrite <- !app_assoc.
    rewrite take_text_numbers. rewrite take_text_numbers. cbn [app].
    now rewrite He.
  - cbn [app claims_of N.eqb]. rewrite <- !app_assoc.
    rewrite take_text_numbers. cbn [app]. now rewrite He.
Qed.

Lemma lossless_verifies_own_tokens : verifies_own_tokens platform.
Proof.
  intros p secret now _ Hnow. cbn [jwtVerify SignJWT platform].
  unfold verify, sign. cbn [app].
  rewrite split_at_separator by apply letter_no_dot, numbers_letters.
  rewrite split_at_separator
    by apply letter_no_dot, fill_letters, numbers_letters.
  rewrite split_without_separator by (repeat constructor; discriminate).
  cbn [fst snd]. rewrite jseqb_refl.
  unfold fill. rewrite read_numbers, read_zeros, claims_of_numbers.
  apply Z.ltb_lt in Hnow. now rewrite Hnow.
Qed.

Lemma lossless_compact_tokens : compact_tokens platform.
Proof.
  intros p secret. cbn [SignJWT platform]. unfold sign.
  apply Forall_app. split; [apply letter_unreserved, numbers_letters|].
  apply Forall_app. split; [repeat constructor|].
  apply Forall_app. split;
    [apply letter_unreserved, fill_letters, numbers_letters|].
  cbn. repeat constructor.
Qed.

Lemma lossless_uuids_distinct : uuids_distinct platform.
Proof.
  split; cbn [randomUUID platform].
  - intros i j H. apply (f_equal (@List.length N)) in H.
    rewrite !uuid_length in H. lia.
  - intros i. unfold Demo.uuid. discriminate.
Qed.

End LosslessFacts.

Lemma issued_access_token_passes_guard_witness :
  exists token,
    body Lossless.response1 = JsonString token /\
    forall now', (now' < 1000 + 300)%Z ->
      bearer_guard Lossless.platform Demo.env (Some (js "Bearer " ++ token)) now'
      = Proceeds (js "store-alice").
Proof.
  refine (proj1 (issued_access_token_passes_guard Lossless.platform Demo.env
                   lossless_verifies_own_tokens)
            Demo.login_request 1000%Z Demo.world Lossless.response1
            Lossless.world1
            {| cred_username := Str (js "alice");
               cred_password := Str (js "correct-password") |}
            (js "alice") Demo.alice _ _ _ _ _).
  - vm_compute. reflexivity.
  - vm_compute. reflexivity.
  - vm_compute. reflexivity.
  - vm_compute. reflexivity.
  - vm_compute. reflexivity.
Defined.

(* ================================================================= *)
(** * Token ids, and the refresh that follows a login *)

Section Sessions.

Context (P : Platform) (env : Env).

Lemma in_rotated_id u' uid w :
  In u' (users (rotated P uid w)) ->
  exists u, In u (users w) /\ id u' = id u /\
    (id u = uid /\ token_id u' = Some (randomUUID P (uuids_drawn w))
     \/ id u <> uid /\ token_id u' = token_id u).
Proof.
  unfold rotated. cbn [users]. intros H. apply in_map_iff in H.
  destruct H as (u & <- & Hin). exists u. split; [assumption|].
  destruct (Z.eqb_spec (id u) uid); cbn; auto.
Qed.

Lemma rotated_ids_drawn uid w : ids_drawn P w -> ids_drawn P (rotated P uid w).
Proof.
  intros H u' x Hin Hx.
  destruct (in_rotated_id _ _ _ Hin) as (u & Hu & _ & [[_ Hs]|[_ Hs]]);
    rewrite Hs in Hx.
  - injection Hx as <-. exists (uuids_drawn w). cbn. split; [lia|auto].
  - destruct (H u x Hu Hx) as (k & Hk & ->). exists k. cbn. split; [lia|auto].
Qed.

Lemma rotated_ids_owned uid w :
  uuids_distinct P -> ids_drawn P w -> ids_owned w ->
  ids_owned (rotated P uid w).
Proof.
  intros [Hinj _] Hd Ho u1' u2' t H1 H2 T1 T2.
  destruct (in_rotated_id _ _ _ H1) as (u1 & Hu1 & E1 & [[I1 S1]|[I1 S1]]);
    destruct (in_rotated_id _ _ _ H2) as (u2 & Hu2 & E2 & [[I2 S2]|[I2 S2]]);
    rewrite S1 in T1; rewrite S2 in T2.
  - congruence.
  - injection T1 as <-. destruct (Hd u2 _ Hu2 T2) as (k & Hk & Ek).
    apply Hinj in Ek. lia.
  - injection T2 as <-. destruct (Hd u1 _ Hu1 T1) as (k & Hk & Ek).
    apply Hinj in Ek. lia.
  - rewrite E1, E2. eapply Ho; eauto.
Qed.

Lemma reachable_ids :
  uuids_distinct P ->
  forall w, reachable P env w -> ids_drawn P w /\ ids_owned w.
Proof.
  intros Hu.
  apply (reachable_invariant P env (fun w => ids_drawn P w /\ ids_owned w)).
  - intros w [_ Hnull]. rewrite Forall_forall in Hnull. split.
    + intros u x Hin Hx. destruct (Hnull u Hin) as [Hn _]. congruence.
    + intros u u' t Hin _ Hx. destruct (Hnull u Hin) as [Hn _]. congruence.
  - intros uid w [Hd Ho]. split;
      [now apply rotated_ids_drawn|now apply rotated_ids_owned].
Qed.

(** At a reachable state a token id is on file in one row at most, and the
    lookup by token id returns the slug of that row. *)
Lemma lookup_by_token_id w u t :
  uuids_distinct P -> reachable P env w ->
  In u (users w) -> token_id u = Some t ->
  (forall u', In u' (users w) -> token_id u' = Some t -> u' = u) /\
  fst (fetchTokenSlugByTokenId t w) = Ok (token_slug u).
Proof.
  intros Hu Hw Hin Ht.
  destruct (reachable_ids Hu w Hw) as [_ Ho].
  assert (Huniq : forall u', In u' (users w) -> token_id u' = Some t -> u' = u).
  { intros u' Hin' Ht'.
    apply (NoDup_map_eq id (users w)); auto.
    - now apply (reachable_ids_distinct P env).
    - eapply Ho; eauto. }
  split; [exact Huniq|].
  cbn [fst fetchTokenSlugByTokenId].
  destruct (find (has_token_id t) (users w)) as [u0|] eqn:Hf.
  - apply find_some in Hf. destruct Hf as [Hin0 H0].
    unfold has_token_id in H0.
    destruct (token_id u0) as [t0|] eqn:E0; [|discriminate].
    apply jseqb_eq in H0. subst t0. now rewrite (Huniq u0 Hin0 E0).
  - exfalso. apply (find_none _ _ Hf) in Hin.
    unfold has_token_id in Hin. rewrite Ht, jseqb_refl in Hin. discriminate.
Qed.

(** X11. At every reachable state no two rows hold the same token id, so
    the lookup by token id of the refresh handler is unambiguous: it
    returns the slug of the one row that holds the id. *)
Theorem token_id_identifies_one_row (w : World) (u : User) (t : jsstring) :
  uuids_distinct P -> reachable P env w ->
  In u (users w) -> token_id u = Some t ->
  (forall u', In u' (users w) -> token_id u' = Some t -> u' = u) /\
  fst (fetchTokenSlugByTokenId t w) = Ok (token_slug u).
Proof. apply lookup_by_token_id. Qed.

Lemma refresh_tok_unreserved :
  Forall (fun c => URI.unreserved c = true) (js "refresh-tok").
Proof. cbn. repeat constructor. Qed.

(** The cookie of a login, sent back, is read as the refresh token. *)
Lemma getCookie_token token options setCookie req :
  Forall (fun c => URI.unreserved c = true) token ->
  createCookie (js "refresh-tok") token options = Ok setCookie ->
  cookie_header req = Some (cookie_pair setCookie) ->
  getCookie req (js "refresh-tok") = Ok (Some token).
Proof.
  intros Ht Hc Hreq.
  destruct (createCookie_shape _ _ _ _ Hc) as (r & tail & He & -> & Htail).
  rewrite encodeURIComponent_unreserved in He by assumption.
  injection He as <-.
  assert (Hsafe : Forall cookie_safe token)
    by (eapply Forall_impl; [|exact Ht]; apply unreserved_cookie_safe).
  assert (Hn : Forall cookie_safe (js "refresh-tok"))
    by (eapply Forall_impl; [|exact refresh_tok_unreserved];
        apply unreserved_cookie_safe).
  assert (Hfirst : Forall (fun c => c <> 59%N) (js "refresh-tok" ++ 61%N :: token)).
  { apply Forall_app. split; [|constructor; [discriminate|]];
      (eapply Forall_impl; [|eassumption]); now intros c [H _]. }
  rewrite cookie_pair_of_shape in Hreq by assumption.
  rewrite (getCookie_first_cookie req _ token []); auto.
  - assert (Hd : URI.decodeURIComponent token = Ok token).
    { apply decodeURIComponent_encodeURIComponent.
      - eapply Forall_impl; [|exact Ht]. intros c Hc'.
        apply unreserved_small in Hc'. lia.
      - now apply encodeURIComponent_unreserved. }
    now rewrite Hd.
  - now rewrite app_nil_r.
Qed.

(** The way through the refresh handler when every check passes. *)
Lemma refresh_accepts req now w t payload s slug claims :
  getCookie req (js "refresh-tok") = Ok (Some t) -> t <> [] ->
  List.length (split_fields 46 t) = 3%nat ->
  decode_payload P (nth 1 (split_fields 46 t) []) = Some (Some payload) ->
  raw_sub payload = Str s -> s <> [] ->
  fst (fetchTokenSlugByTokenId s w) = Ok (Some slug) -> slug <> [] ->
  verifyRefreshToken P t slug now = Some claims ->
  fst (refresh P env req now w)
  = Ok (c_json (JsonString (createAccessToken P (store claims)
                              (getJwtSecret env) now)) 200 []).
Proof.
  intros Hc Ht Hl Hd Hs Hn Hf Hk Hv. unfold refresh.
  cbv beta iota zeta delta [try_catch bind ret lift]. rewrite Hc.
  destruct t as [|c t]; [congruence|].
  apply Nat.eqb_eq in Hl. rewrite Hl. cbn [negb]. rewrite Hd, Hs.
  destruct s as [|c' s]; [congruence|].
  cbn [truthy_value truthy negb D1_bind].
  destruct (fetchTokenSlugByTokenId (c' :: s) w) as [r w'].
  cbn [fst] in Hf. rewrite Hf.
  destruct slug as [|c'' k]; [congruence|]. rewrite Hv. reflexivity.
Qed.

(** X12. A refresh that follows a login succeeds: when the request carries
    the cookie of the login response, before the 25200 seconds of the
    refresh token have passed and before another login of the user, it is
    answered 200 with an access token over the [storage_dir] of the user
    who logged in. The handler must be able to read the [sub] of the token
    ([readable]). *)
Theorem refresh_after_login_succeeds (w0 : World) (req : Request) (now : Z)
    (resp : Response) (w1 : World) (name : jsstring) (user : User)
    (setCookie : jsstring) (req' : Request) (now' : Z) :
  uuids_distinct P -> verifies_own_tokens P -> compact_tokens P ->
  reachable P env w0 ->
  login P env req now w0 = (Ok resp, w1) -> status resp = 200%Z ->
  option_map (option_map cred_username) (Request_json P (body_text req))
  = Some (Some (Str name)) ->
  fst (fetchUserByUsername name w0) = Ok (Some user) ->
  readable P (createRefreshToken P (randomUUID P (uuids_drawn w0))
                (storage_dir user) (randomUUID P (S (uuids_drawn w0))) now)
           (randomUUID P (uuids_drawn w0)) ->
  header "Set-Cookie" (headers resp) = Some setCookie ->
  cookie_header req' = Some (cookie_pair setCookie) ->
  (now' < now + 25200)%Z ->
  refresh P env req' now' w1
  = (Ok (c_json (JsonString (createAccessToken P (storage_dir user)
                               (getJwtSecret env) now')) 200 []), w1).
Proof.
  intros Hu Hv Hc Hreach L S1 N1 F1 [Hparts (claims & Hdec & Hsub)] Hh Hreq Hnow.
  destruct (login_ok_inv _ _ _ _ _ _ _ L S1)
    as (b & n & user' & cookie & Hb & _ & _ & Hn & Hf & _ & _
        & Hcookie & Hr & Hw1).
  rewrite Hb in N1. cbn in N1. injection N1 as N1.
  rewrite N1 in Hn. cbn in Hn. injection Hn as <-.
  cbn [fst fetchUserByUsername] in F1. injection F1 as F1.
  rewrite Hf in F1. injection F1 as ->.
  set (tokenId := randomUUID P (uuids_drawn w0)) in *.
  set (tokenSlug := randomUUID P (S (uuids_drawn w0))) in *.
  set (token := createRefreshToken P tokenId (storage_dir user) tokenSlug now)
    in *.
  assert (Hset : setCookie = cookie).
  { subst resp. cbn in Hh. congruence. }
  subst setCookie.
  assert (Hget : getCookie req' (js "refresh-tok") = Ok (Some token)).
  { eapply getCookie_token; eauto. }
  (* the world after the login, and the row of the user in it *)
  assert (Hreach1 : reachable P env w1).
  { replace w1 with (step P env w0 (Login req now));
      [now apply reachable_step|]. unfold step. cbn [handle]. now rewrite L. }
  set (u1 := set_tokens tokenId tokenSlug user).
  assert (Hin1 : In u1 (users w1)).
  { rewrite Hw1. unfold rotated. cbn [users]. apply in_map_iff.
    exists user. split; [now rewrite Z.eqb_refl|].
    apply find_some in Hf. tauto. }
  destruct (lookup_by_token_id w1 u1 tokenId Hu Hreach1 Hin1 eq_refl)
    as [_ Hlook].
  cbn [token_slug u1 set_tokens] in Hlook.
  destruct Hu as [_ Hne].
  (* the handler *)
  pose proof (refresh_world P env req' now' w1) as Hworld.
  destruct (refresh P env req' now' w1) as [r w'] eqn:E.
  cbn [snd] in Hworld. subst w'. f_equal.
  assert (Er : fst (refresh P env req' now' w1) = r) by now rewrite E.
  rewrite <- Er.
  refine (refresh_accepts req' now' w1 token claims tokenId tokenSlug
            {| sub := Some tokenId; store := storage_dir user;
               exp := now + 7 * 60 * 60 |}
            Hget _ Hparts Hdec Hsub (Hne _) Hlook (Hne _) _).
  - intros Et. rewrite Et in Hparts. discriminate.
  - unfold verifyRefreshToken, token, createRefreshToken.
    apply Hv.
    + apply TextEncoder_encode_nonempty, Hne.
    + cbn [exp]. lia.
Qed.

End Sessions.

Lemma refresh_after_login_succeeds_witness :
  refresh Lossless.platform Demo.env Lossless.refresh1 1200 Lossless.world1
  = (Ok (c_json (JsonString (createAccessToken Lossless.platform
                               (storage_dir Demo.alice)
                               (getJwtSecret Demo.env) 1200)) 200 []),
     Lossless.world1).
Proof.
  refine (refresh_after_login_succeeds Lossless.platform Demo.env
            Demo.world Demo.login_request 1000 Lossless.response1
            Lossless.world1 (js "alice") Demo.alice
            (match header "Set-Cookie" (headers Lossless.response1) with
             | Some c => c | None => [] end)
            Lossless.refresh1 1200
            lossless_uuids_distinct lossless_verifies_own_tokens
            lossless_compact_tokens
            (reachable_initial _ _ _ demo_world_initial) _ _ _ _ _ _ _ _).
  - vm_compute. reflexivity.
  - vm_compute. reflexivity.
  - vm_compute. reflexivity.
  - vm_compute. reflexivity.
  - split; [vm_compute; reflexivity|].
    eexists. split; [vm_compute; reflexivity|]. vm_compute. reflexivity.
  - vm_compute. reflexivity.
  - vm_compute. reflexivity.
  - reflexivity.
Defined.

Lemma token_id_identifies_one_row_witness :
  fst (fetchTokenSlugByTokenId (Demo.uuid 0) Lossless.world1)
  = Ok (Some (Demo.uuid 1)).
Proof.
  refine (proj2 (token_id_identifies_one_row Lossless.platform Demo.env
                   Lossless.world1
                   (set_tokens (Demo.uuid 0) (Demo.uuid 1) Demo.alice)
                   (Demo.uuid 0) lossless_uuids_distinct _ _ _)).
  - apply (reachable_step Lossless.platform Demo.env Demo.world
             (Login Demo.login_request 1000)).
    apply reachable_initial, demo_world_initial.
  - vm_compute. left. reflexivity.
  - reflexivity.
Defined.

(* ================================================================= *)
(** * [routes/files.ts]: keys, partitions and the extension test *)

Lemma startsWith_inv s p : startsWith s p = true -> exists r, s = p ++ r.
Proof.
  revert s. induction p as [|x p IH]; intros s H; [now exists s|].
  destruct s as [|c s]; [discriminate|]. cbn in H.
  apply andb_true_iff in H. destruct H as [Hc H].
  apply N.eqb_eq in Hc. subst c.
  destruct (IH s H) as [r ->]. now exists r.
Qed.

Lemma segment_of_prefix s1 s2 f r :
  one_segment s1 -> one_segment s2 ->
  s1 ++ 47%N :: f = s2 ++ 47%N :: r -> s1 = s2.
Proof.
  intros H1 H2 E. apply (f_equal (split 47)) in E.
  rewrite !split_at_separator in E by assumption. now injection E.
Qed.

(** A key of one partition starts with the prefix of no other. *)
Lemma partitions_apart d d' s1 s2 f :
  route_directory d -> route_directory d' ->
  one_segment s1 -> one_segment s2 -> s1 <> s2 ->
  startsWith (js d ++ js "/" ++ s1 ++ js "/" ++ f)
             (js d' ++ js "/" ++ s2 ++ js "/") = false.
Proof.
  intros Hd Hd' H1 H2 Hne.
  destruct (startsWith _ _) eqn:E; [|reflexivity]. exfalso.
  apply startsWith_inv in E. destruct E as [r E].
  rewrite <- !app_assoc in E.
  destruct Hd as [-> | ->], Hd' as [-> | ->]; cbn in E;
    try discriminate; apply Hne;
    injection E as E; exact (segment_of_prefix _ _ _ _ H1 H2 E).
Qed.

Lemma keys_apart d d' s1 s2 f f' :
  route_directory d -> route_directory d' ->
  one_segment s1 -> one_segment s2 -> s1 <> s2 ->
  js d' ++ js "/" ++ s2 ++ js "/" ++ f'
  <> js d ++ js "/" ++ s1 ++ js "/" ++ f.
Proof.
  intros Hd Hd' H1 H2 Hne E.
  pose proof (partitions_apart d d' s1 s2 f Hd Hd' H1 H2 Hne) as H.
  rewrite <- E in H.
  replace (js d' ++ js "/" ++ s2 ++ js "/" ++ f')
    with ((js d' ++ js "/" ++ s2 ++ js "/") ++ f') in H
    by now rewrite <- !app_assoc.
  rewrite startsWith_app in H. discriminate.
Qed.

Section FilesFacts.

Context (R : FilesRuntime).

(** The bucket after an upload is the one before it, or the result of one
    [put] under the key of the file. *)
Lemma upload_file_bucket d ct m check context form b :
  snd (upload_file R d ct m check context form b) = b \/
  exists storePath file,
    context = Some storePath /\ form = Some (Some (FormFile file)) /\
    R2_put R b (js d ++ js "/" ++ storePath ++ js "/" ++ file_name file)
           (file_bytes file) (js ct)
    = Some (snd (upload_file R d ct m check context form b)).
Proof.
  unfold upload_file, getStorePath.
  destruct context as [[|c s]|]; auto.
  destruct form as [[[[|x t]|file]|]|]; auto.
  destruct (negb (check (file_name file))); auto.
  destruct (R2_put R b _ _ _) as [b'|] eqn:E; auto.
  right. exists (c :: s), file. auto.
Qed.

Lemma upload_file_frame d ct m check s1 s2 form b :
  put_frame R -> route_directory d ->
  one_segment s1 -> one_segment s2 -> s1 <> s2 ->
  forall d', route_directory d' ->
    (forall ct' mi nf filename,
        download_file R d' ct' mi nf (Some s2) filename
          (snd (upload_file R d ct m check (Some s1) form b))
        = download_file R d' ct' mi nf (Some s2) filename b) /\
    list_files R d' (Some s2)
      (snd (upload_file R d ct m check (Some s1) form b))
    = list_files R d' (Some s2) b.
Proof.
  intros HR Hd H1 H2 Hne d' Hd'.
  destruct (upload_file_bucket d ct m check (Some s1) form b)
    as [-> | (sp & file & Hsp & _ & Hput)]; [split; reflexivity|].
  injection Hsp as <-.
  destruct (HR _ _ _ _ _ Hput) as [Hget Hlist]. split.
  - intros ct' mi nf filename. unfold download_file, getStorePath.
    destruct s2 as [|c s2]; [reflexivity|].
    destruct filename as [[|x fn]|]; try reflexivity.
    rewrite Hget; [reflexivity|].
    now apply keys_apart.
  - unfold list_files, getStorePath.
    destruct s2 as [|c s2]; [reflexivity|].
    rewrite Hlist; [reflexivity|].
    now apply partitions_apart.
Qed.

(** X13. An upload into one storage directory changes no answer of the
    download and list routes of another one, for ROMs and for saves, when
    the two directories are single path segments. *)
Theorem upload_leaves_other_partitions_alone
    (s1 s2 : jsstring) (form : option (option FormValue)) (b : Bucket R) :
  put_frame R ->
  one_segment s1 -> one_segment s2 -> s1 <> s2 ->
  forall b',
    b' = snd (rom_upload R (Some s1) form b) \/
    b' = snd (save_upload R (Some s1) form b) ->
    (forall filename,
        rom_download R (Some s2) filename b'
        = rom_download R (Some s2) filename b) /\
    (forall filename,
        save_download R (Some s2) filename b'
        = save_download R (Some s2) filename b) /\
    rom_list R (Some s2) b' = rom_list R (Some s2) b /\
    save_list R (Some s2) b' = save_list R (Some s2) b.
Proof.
  intros HR H1 H2 Hne b' Hb'.
  unfold rom_download, save_download, rom_list, save_list.
  destruct Hb' as [-> | ->]; unfold rom_upload, save_upload;
    repeat split; intros;
    apply upload_file_frame; auto; unfold route_directory; auto.
Qed.

Lemma lastIndexOf_absent s c i last :
  Forall (fun x => x <> c) s -> lastIndexOf_from s c i last = last.
Proof.
  intros H. revert i. induction H as [|x s Hx _ IH]; intros i;
    cbn [lastIndexOf_from]; [reflexivity|].
  apply N.eqb_neq in Hx. rewrite Hx. apply IH.
Qed.

Lemma slice_last_length s : (List.length (slice s (-1)) <= 1)%nat.
Proof.
  unfold slice. cbn [Z.ltb Z.compare]. rewrite length_skipn. lia.
Qed.

Lemma short_extension_invalid ext :
  (List.length ext <= 1)%nat -> existsb (jseqb ext) validExtensions = false.
Proof.
  intros H. unfold validExtensions. cbn [existsb].
  repeat match goal with
         | |- context [jseqb ext ?v] =>
             let E := fresh in
             destruct (jseqb ext v) eqn:E;
             [apply jseqb_length in E; cbn in E; lia|]
         end.
  reflexivity.
Qed.

(** X14. The ROM upload refuses a file whose name has no dot, with 400
    and the bucket unchanged, whatever [toLowerCase] does to the name:
    [lastIndexOf] is then -1 and [slice(-1)] keeps at most one code unit,
    which is no extension of the list. *)
Theorem rom_upload_refuses_name_without_dot
    (storePath : jsstring) (file : File) (b : Bucket R) :
  storePath <> [] ->
  Forall (fun c => c <> 46%N) (file_name file) ->
  rom_upload R (Some storePath) (Some (Some (FormFile file))) b
  = (files_json
       (FilesError "Invalid file format. Expected .gba/.gbc/.gb/.zip/.7z")
       400, b).
Proof.
  intros Hs Hn. unfold rom_upload, upload_file, getStorePath.
  destruct storePath as [|c s]; [congruence|].
  unfold valid_rom_name, lastIndexOf.
  rewrite lastIndexOf_absent by assumption.
  rewrite short_extension_invalid by apply slice_last_length.
  reflexivity.
Qed.

Lemma download_after_upload d ct m check mi nf storePath file b resp b' :
  get_after_put R ->
  upload_file R d ct m check (Some storePath) (Some (Some (FormFile file))) b
  = (resp, b') ->
  files_status resp = 200%Z ->
  file_name file <> [] ->
  forall type disposition,
    header_value R (js ct) = Some type ->
    header_value R (content_disposition (file_name file))
    = Some disposition ->
    download_file R d ct mi nf (Some storePath) (Some (file_name file)) b'
    = {| files_status := 200;
         files_headers := [("Content-Type"%string, type);
                           ("Content-Disposition"%string, disposition)];
         files_body := FileContent (file_bytes file) |}.
Proof.
  intros HR H Hs Hn type disposition Ht Hd.
  unfold upload_file, getStorePath in H. unfold download_file, getStorePath.
  destruct storePath as [|c s]; [injection H as <- _; discriminate|].
  destruct (file_name file) as [|x name] eqn:En; [congruence|].
  destruct (negb (check (x :: name))); [injection H as <- _; discriminate|].
  destruct (R2_put R b _ _ _) as [b1|] eqn:Ep;
    [|injection H as <- _; discriminate].
  injection H as _ <-.
  rewrite (HR _ _ _ _ _ Ep). rewrite Ht, Hd. reflexivity.
Qed.

(** X15. A file that an upload route stored (answer 200) under a
    non-empty name is what the download route of the same kind returns
    for that name and the same storage directory, with status 200, when
    the two header values are accepted; for ROMs and for saves. *)
Theorem download_returns_the_uploaded_file
    (storePath : jsstring) (file : File) (b b' : Bucket R)
    (resp : FilesResponse) (type disposition : jsstring) :
  get_after_put R ->
  files_status resp = 200%Z ->
  file_name file <> [] ->
  header_value R (content_disposition (file_name file))
  = Some disposition ->
  (rom_upload R (Some storePath) (Some (Some (FormFile file))) b = (resp, b') ->
   header_value R (js "application/x-gba-rom") = Some type ->
   rom_download R (Some storePath) (Some (file_name file)) b'
   = {| files_status := 200;
        files_headers := [("Content-Type"%string, type);
                          ("Content-Disposition"%string, disposition)];
        files_body := FileContent (file_bytes file) |}) /\
  (save_upload R (Some storePath) (Some (Some (FormFile file))) b = (resp, b') ->
   header_value R (js "application/octet-stream") = Some type ->
   save_download R (Some storePath) (Some (file_name file)) b'
   = {| files_status := 200;
        files_headers := [("Content-Type"%string, type);
                          ("Content-Disposition"%string, disposition)];
        files_body := FileContent (file_bytes file) |}).
Proof.
  intros HR Hs Hn Hd. split; intros H Ht.
  - exact (download_after_upload _ _ _ _ _ _ _ _ _ _ _ HR H Hs Hn _ _ Ht Hd).
  - exact (download_after_upload _ _ _ _ _ _ _ _ _ _ _ HR H Hs Hn _ _ Ht Hd).
Qed.

End FilesFacts.

(* ================================================================= *)
(** * Expiry *)

Section Expiry.

Context (P : Platform) (env : Env).

Lemma guard_rejects_expired_token storageDir secret now now' :
  rejects_expired P -> (now + 300 <= now')%Z ->
  bearer_guard P env
    (Some (js "Bearer " ++ createAccessToken P storageDir secret now)) now'
  = Rejected (c_json (JsonError "Invalid or expired token") 401 []).
Proof.
  intros HP Hn. unfold bearer_guard.
  set (t := createAccessToken P storageDir secret now).
  assert (E : exists c h, js "Bearer " ++ t = c :: h) by (cbn; eauto).
  destruct E as (c & h & E). rewrite E. rewrite <- E.
  rewrite startsWith_app. cbn [negb]. rewrite skipn_prefix.
  unfold verifyAccessToken, t, createAccessToken.
  rewrite HP; [reflexivity|cbn; lia].
Qed.

(** X16. Tokens expire: from 300 seconds after it was created on, an
    access token is refused by the bearer guard with 401; from 25200
    seconds after it was created on, a refresh token is never accepted by
    the refresh route, whatever the stored rows are, and nothing is
    written. The answer is 401 for a token whose payload is an object
    ([object_payload]), as the payload of a token of [jose] is. *)
Theorem tokens_expire :
  rejects_expired P ->
  (forall storageDir secret now now',
      (now + 300 <= now')%Z ->
      bearer_guard P env
        (Some (js "Bearer " ++ createAccessToken P storageDir secret now)) now'
      = Rejected (c_json (JsonError "Invalid or expired token") 401 [])) /\
  (forall tokenId storageDir tokenSlug now req now' w,
      getCookie req (js "refresh-tok")
      = Ok (Some (createRefreshToken P tokenId storageDir tokenSlug now)) ->
      (now + 25200 <= now')%Z ->
      snd (refresh P env req now' w) = w /\
      (forall resp,
          fst (refresh P env req now' w) = Ok resp -> status resp <> 200%Z) /\
      (object_payload P (createRefreshToken P tokenId storageDir tokenSlug now)
       = true ->
       exists message,
         refresh P env req now' w = (Ok (unauthorized message), w))).
Proof.
  intros HP. split.
  - intros. now apply guard_rejects_expired_token.
  - intros tokenId storageDir tokenSlug now req now' w Hc Hn.
    assert (Hv : forall slug,
               verifyRefreshToken P
                 (createRefreshToken P tokenId storageDir tokenSlug now)
                 slug now' = None).
    { intros slug. unfold verifyRefreshToken, createRefreshToken.
      apply HP. cbn. lia. }
    split; [apply refresh_world|]. split.
    { intros resp H Hs.
      destruct (refresh_ok_inv _ _ _ _ _ _ H Hs)
        as (t & payload & s & slug & claims & Hc' & _ & _ & _ & _ & _ & Hv'
            & _).
      rewrite Hc in Hc'. injection Hc' as <-. now rewrite Hv in Hv'. }
    intros Hobj. unfold object_payload in Hobj.
    unfold refresh.
    cbv beta iota zeta delta [try_catch bind ret lift fetchTokenSlugByTokenId].
    rewrite Hc.
    destruct (createRefreshToken P tokenId storageDir tokenSlug now)
      as [|c t] eqn:Et; [eexists; reflexivity|].
    destruct (negb (_ =? 3)%nat); [eexists; reflexivity|].
    destruct (decode_payload P _) as [[payload|]|];
      [|discriminate|eexists; reflexivity].
    destruct (raw_sub payload) as [|[|c' s]|b x];
      try discriminate; try (eexists; reflexivity).
    cbn [truthy_value truthy negb D1_bind].
    destruct (find _ (users w)) as [u|]; [|eexists; reflexivity].
    destruct (token_slug u) as [[|c'' k]|]; try (eexists; reflexivity).
    rewrite Hv. eexists. reflexivity.
Qed.

End Expiry.

Lemma lossless_rejects_expired : rejects_expired Lossless.platform.
Proof.
  intros p secret secret' now Hn. cbn [jwtVerify SignJWT Lossless.platform].
  unfold Lossless.verify, Lossless.sign. cbn [app].
  rewrite split_at_separator by apply letter_no_dot, numbers_letters.
  rewrite split_at_separator
    by apply letter_no_dot, fill_letters, numbers_letters.
  rewrite split_without_separator by (repeat constructor; discriminate).
  cbn [fst snd].
  destruct (jseqb _ _); [|reflexivity].
  unfold Lossless.fill.
  rewrite read_numbers, read_zeros, claims_of_numbers.
  apply Z.ltb_ge in Hn. now rewrite Hn.
Qed.

Lemma tokens_expire_witness :
  bearer_guard Lossless.platform Demo.env
    (Some (js "Bearer "
           ++ createAccessToken Lossless.platform (js "alice-dir")
                (getJwtSecret Demo.env) 1000)) 1300
  = Rejected (c_json (JsonError "Invalid or expired token") 401 []) /\
  exists message,
    refresh Lossless.platform Demo.env Lossless.refresh1 26200
      Lossless.world1
    = (Ok (unauthorized message), Lossless.world1).
Proof.
  pose proof (tokens_expire Lossless.platform Demo.env
                lossless_rejects_expired) as [Ha Hr].
  split.
  - apply Ha. lia.
  - refine (proj2 (proj2 (Hr (Demo.uuid 0) (storage_dir Demo.alice)
                             (Demo.uuid 1) 1000%Z
                             Lossless.refresh1 26200%Z Lossless.world1 _ _))
                  _).
    + vm_compute. reflexivity.
    + lia.
    + vm_compute. reflexivity.
Defined.

(* ================================================================= *)
(** * The bucket in memory meets the contracts *)

Lemma jseqb_neq a b : a <> b -> jseqb a b = false.
Proof.
  intros H. destruct (jseqb a b) eqn:E; [|reflexivity].
  now apply jseqb_eq in E.
Qed.

Lemma memory_get_after_put : get_after_put Memory.runtime.
Proof.
  intros b key bytes ct b' H. cbn in H. unfold Memory.put in H.
  injection H as <-. cbn [R2_get Memory.runtime]. unfold Memory.get.
  cbn [find fst]. now rewrite jseqb_refl.
Qed.

Lemma memory_put_frame : put_frame Memory.runtime.
Proof.
  intros b key bytes ct b' H. cbn in H. unfold Memory.put in H.
  injection H as <-. split.
  - intros key' Hk. cbn [R2_get Memory.runtime]. unfold Memory.get.
    cbn [find fst]. rewrite jseqb_neq by congruence. do 2 f_equal.
    induction b as [|o b IH]; [reflexivity|]. cbn [filter find].
    destruct (jseqb (fst o) key) eqn:E; cbn [negb].
    + apply jseqb_eq in E. rewrite (jseqb_neq (fst o) key') by congruence.
      exact IH.
    + cbn [find]. now rewrite IH.
  - intros prefix Hp. cbn [R2_list Memory.runtime]. unfold Memory.list_keys.
    cbn [filter fst]. rewrite Hp. do 2 f_equal.
    induction b as [|o b IH]; [reflexivity|]. cbn [filter].
    destruct (jseqb (fst o) key) eqn:E; cbn [negb].
    + apply jseqb_eq in E. rewrite E, Hp. exact IH.
    + cbn [filter]. now rewrite IH.
Qed.

Lemma upload_leaves_other_partitions_alone_witness :
  let b := [(js "roms/bob-dir/Metroid.gba", [5; 6]%N)] in
  let b' := snd (rom_upload Memory.runtime (Some (js "alice-dir"))
                   (Some (Some (FormFile Memory.rom))) b) in
  b' <> b /\
  (forall filename,
      rom_download Memory.runtime (Some (js "bob-dir")) filename b'
      = rom_download Memory.runtime (Some (js "bob-dir")) filename b) /\
  (forall filename,
      save_download Memory.runtime (Some (js "bob-dir")) filename b'
      = save_download Memory.runtime (Some (js "bob-dir")) filename b) /\
  rom_list Memory.runtime (Some (js "bob-dir")) b'
  = rom_list Memory.runtime (Some (js "bob-dir")) b /\
  save_list Memory.runtime (Some (js "bob-dir")) b'
  = save_list Memory.runtime (Some (js "bob-dir")) b.
Proof.
  intros b b'. split; [vm_compute; discriminate|].
  refine (upload_leaves_other_partitions_alone Memory.runtime
            (js "alice-dir") (js "bob-dir")
            (Some (Some (FormFile Memory.rom))) b memory_put_frame
            _ _ _ b' (or_introl eq_refl)).
  - vm_compute. repeat constructor; discriminate.
  - vm_compute. repeat constructor; discriminate.
  - vm_compute. discriminate.
Defined.

Lemma rom_upload_refuses_name_without_dot_witness :
  rom_upload Memory.runtime (Some (js "alice-dir"))
    (Some (Some (FormFile Memory.readme))) []
  = (files_json
       (FilesError "Invalid file format. Expected .gba/.gbc/.gb/.zip/.7z")
       400, []).
Proof.
  apply (rom_upload_refuses_name_without_dot Memory.runtime).
  - vm_compute. discriminate.
  - vm_compute. repeat constructor; discriminate.
Defined.

Lemma download_returns_the_uploaded_file_witness :
  let resp := files_json (Uploaded (js "Zelda.sav")) 200 in
  let b' := [(js "saves/alice-dir/Zelda.sav", [1; 2; 3]%N)] in
  save_upload Memory.runtime (Some (js "alice-dir"))
    (Some (Some (FormFile Memory.save))) [] = (resp, b') /\
  save_download Memory.runtime (Some (js "alice-dir"))
    (Some (js "Zelda.sav")) b'
  = {| files_status := 200;
       files_headers :=
         [("Content-Type"%string, js "application/octet-stream");
          ("Content-Disposition"%string,
           content_disposition (js "Zelda.sav"))];
       files_body := FileContent [1; 2; 3]%N |}.
Proof.
  intros resp b'. split; [vm_compute; reflexivity|].
  refine (proj2 (download_returns_the_uploaded_file Memory.runtime
                   (js "alice-dir") Memory.save [] b' resp
                   (js "application/octet-stream")
                   (content_disposition (js "Zelda.sav"))
                   memory_get_after_put _ _ _) _ _).
  - vm_compute. reflexivity.
  - vm_compute. discriminate.
  - vm_compute. reflexivity.
  - vm_compute. reflexivity.
  - vm_compute. reflexivity.
Defined.
